(** * dd-epss-enrich: the enrichment pipeline of [epss-enrich.go]

    A shallow embedding of the Go program that reads the active findings of a
    DefectDojo instance, loads the daily EPSS feed, joins both on the CVE
    identifier and writes the scores back with one PUT per finding.

    Conventions of the embedding.
    - A Go [string] is a sequence of bytes: Rocq's [string].
    - A Go [int] is [Z] (no arithmetic of the program can overflow: the only
      operation is [i++] below a bound that is itself an [int]).
    - [log.Fatal] and a run-time panic both end the process, but differently:
      [outcome] keeps them apart from a normal return.
    - A Go [map] is a reference.  The JSON objects of the decoded listing live
      in a [heap] and a finding holds the address of its body, so that the
      in-place writes of [EnrichFindingData] are writes to the heap.
    - What the program takes from [strconv], [fmt], [encoding/csv],
      [encoding/json] and [net/http] (IEEE-754 parsing and printing, the CSV
      reader, the JSON encoder, the transport) is an interface, and the
      general theorems hold for all its implementations.  [Ref] gives
      executable instances, used to run the program on concrete inputs.
    - The download and decompression of the feed ([FetchEpssData],
      [UnGzip]) and the decoding of the listing ([CreateJsonQuery]) are
      outside the embedding: [LoadEpssData] starts from the file system and
      [CreateFindingsRaw] from the decoded document. *)

From Stdlib Require Import ZArith String Ascii.
From Stdlib Require Import Decimal DecimalString DecimalZ DecimalPos.
From stdpp Require Import gmap strings list fin_maps.

Set Warnings "-register-all".
Local Open Scope Z_scope.
Local Open Scope string_scope.

(** ** Ways a run can end *)

(** Errors of [encoding/csv] under the default configuration. *)
Inductive csv_error : Type :=
  | ErrBareQuote
  | ErrQuote
  | ErrFieldCount.

(** The [log.Fatal] calls of the source, by the call whose error they
    report. *)
Inductive fatal : Type :=
  | FatalCount                      (* CreateFindingsRaw: jq.Int("count") *)
  | FatalVulnId0 (i : Z)            (* jq.String(..., "vulnerability_ids", "0", ...) *)
  | FatalVulnId1 (i : Z)            (* jq.String(..., "vulnerability_ids", "1", ...) *)
  | FatalId (i : Z)                 (* jq.Int("results", i, "id") *)
  | FatalBody (i : Z)               (* jq.Object("results", i) *)
  | FatalOpen                       (* LoadEpssData: os.Open *)
  | FatalReadFile                   (* buf.ReadFrom *)
  | FatalNoNewline                  (* "Couldnt skip first line of EPSS data" *)
  | FatalCsv (e : csv_error)        (* r.Read() *)
  | FatalScore (field : string)     (* strconv.ParseFloat(record[1], 64) *)
  | FatalPercentile (field : string)(* strconv.ParseFloat(record[2], 64) *)
  | FatalMarshal                    (* PatchFindingData: json.Marshal *)
  | FatalNewRequest                 (* http.NewRequest *)
  | FatalTransport                  (* client.Do *)
  | FatalReadBody.                  (* FetchFindings: io.ReadAll *)

(** Run-time panics the program can raise. *)
Inductive panic : Type :=
  | IndexOutOfRange (i len : nat)   (* record[i] with len(record) <= i *)
  | NegativeIndex (i : Z)           (* a[i] with i < 0 *)
  | SliceOutOfRange (lo len : nat)  (* epss_list[lo:] with len(epss_list) < lo *)
  | NilMapWrite.                    (* assignment to entry in nil map *)

Inductive outcome (A : Type) : Type :=
  | Ret (a : A)
  | Fatal (e : fatal)
  | Panic (p : panic).
Arguments Ret {A} a.
Arguments Fatal {A} e.
Arguments Panic {A} p.

Definition obind {A B : Type} (m : outcome A) (k : A -> outcome B) : outcome B :=
  match m with
  | Ret a => k a
  | Fatal e => Fatal e
  | Panic p => Panic p
  end.

Notation "x <-! m ; k" := (obind m (fun x => k))
  (at level 100, m at next level, right associativity,
   format "x  <-!  m ;  '/' k").

(** What a query of [jsonq] returns: a value, an error, or a panic of the
    library. *)
Inductive jq_result (A : Type) : Type :=
  | JqOk (a : A)
  | JqErr
  | JqPanic (p : panic).
Arguments JqOk {A} a.
Arguments JqErr {A}.
Arguments JqPanic {A} p.

(** [v, err := f(); if err != nil { log.Fatal(err) }] *)
Definition or_fatal {A : Type} (e : fatal) (r : option A) : outcome A :=
  match r with
  | Some a => Ret a
  | None => Fatal e
  end.

(** [l[i]] on a slice: a panic when out of range. *)
Definition index_or_panic {A : Type} (l : list A) (i : nat) : outcome A :=
  match l !! i with
  | Some a => Ret a
  | None => Panic (IndexOutOfRange i (length l))
  end.

(** [l[lo:]] on a slice: the bound checked is [lo <= len(l)]. *)
Definition slice_from {A : Type} (l : list A) (lo : nat) : outcome (list A) :=
  if decide (lo <= length l)%nat then Ret (drop lo l)
  else Panic (SliceOutOfRange lo (length l)).

(** The source has one way to fail, [log.Fatal(err)].  The statements that
    name a kind of failure read it off the call that failed: the listing
    has not the expected shape, a record has no identifier string at the
    position read, the feed text does not parse, a request got no
    response; the other calls have no kind of their own. *)
Inductive error_kind : Type :=
  | MalformedResponse
  | MissingIdentifier
  | MalformedFeed
  | TransportFailure
  | OtherFailure.

Definition kind_of (e : fatal) : error_kind :=
  match e with
  | FatalCount | FatalId _ | FatalBody _ => MalformedResponse
  | FatalVulnId0 _ | FatalVulnId1 _ => MissingIdentifier
  | FatalNoNewline | FatalCsv _ | FatalScore _ | FatalPercentile _ =>
      MalformedFeed
  | FatalTransport | FatalReadBody => TransportFailure
  | FatalOpen | FatalReadFile | FatalMarshal | FatalNewRequest => OtherFailure
  end.

(** The bounds of a 64-bit [int]. *)
Definition int_range (z : Z) : Prop := - 2 ^ 63 <= z < 2 ^ 63.

(** ** Library interfaces *)

(** [float64] with the three operations the program applies to it. *)
Class FloatLib : Type := {
  float64 : Type;
  (** the zero value of [float64] *)
  float64_zero : float64;
  (** [strconv.ParseFloat(s, 64)]; [None] when [err != nil] *)
  strconv_ParseFloat : string -> option float64;
  (** [fmt.Sprintf("%.5f", x)] *)
  fmt_Sprintf_5f : float64 -> string;
  (** the conversion [int(x)], whose result is an [int] *)
  int_of_float64 : float64 -> Z;
  int_of_float64_range : forall x, int_range (int_of_float64 x)
}.

(** A [csv.Reader] over a finite text: what the successive calls of [Read]
    return, namely the records in order and then, for ever, either [io.EOF]
    ([final = None]) or a parse error. *)
Record csv_Reader : Type := {
  pending : list (list string);
  final : option csv_error
}.

Class CsvLib : Type := {
  (** [csv.NewReader(strings.NewReader(s))] *)
  csv_NewReader : string -> csv_Reader
}.

(** ** Strings *)

Definition NL : string := String (ascii_of_nat 10) EmptyString.

(** [strings.Index(s, sub)]; [None] for -1. *)
Definition strings_Index (s sub : string) : option nat := String.index 0 sub s.

(** [strings.Contains(s, sub)] *)
Definition strings_Contains (s sub : string) : bool :=
  match strings_Index s sub with
  | Some _ => true
  | None => false
  end.

(** [s[n:]] for [n <= len(s)]. *)
Fixpoint string_from (n : nat) (s : string) : string :=
  match n, s with
  | O, _ => s
  | S n', String _ s' => string_from n' s'
  | S _, EmptyString => EmptyString
  end.

Definition in_int_range (z : Z) : option Z :=
  if decide (int_range z) then Some z else None.

(** [strconv.Itoa(i)] and the verbs [%d], [%v] of an [int]. *)
Definition strconv_Itoa (i : Z) : string := NilZero.string_of_int (Z.to_int i).

(** One or more decimal digits. *)
Definition parse_digits (s : string) : option Z :=
  match s with
  | EmptyString => None
  | _ => option_map Z.of_uint (NilEmpty.uint_of_string s)
  end.

(** [strconv.Atoi(s)]: an optional sign, then decimal digits; [None] on a
    syntax or range error. *)
Definition strconv_Atoi (s : string) : option Z :=
  match s with
  | EmptyString => None
  | String a s' =>
      if Ascii.eqb a "+" then parse_digits s' ≫= in_int_range
      else if Ascii.eqb a "-" then (Z.opp <$> parse_digits s') ≫= in_int_range
      else parse_digits s ≫= in_int_range
  end.

(** ** Data model *)

Definition loc : Type := positive.
Bind Scope positive_scope with loc.

Section Data.
Context `{FL : FloatLib}.

(** A decoded JSON value ([interface{}] as [encoding/json] fills it): an
    object is a Go map, hence an address. *)
Inductive json : Type :=
  | JNull
  | JBool (b : bool)
  | JNum (x : float64)
  | JStr (s : string)
  | JArr (l : list json)
  | JObj (m : loc).

Record finding_data : Type := {
  selector : Z;               (* Index in json array *)
  id : Z;                     (* ID on defectdojo *)
  cve : string;               (* CVE number *)
  epss_score : float64;       (* 5 decimals *)
  epss_percentile : float64;  (* 5 decimals *)
  body : option loc           (* Finding body on defectdojo; None is the nil map *)
}.

Record epss_data : Type := {
  e_cve : string;
  e_score : float64;
  e_percentile : float64
}.

End Data.

(** The maps of the decoded document. *)
Abbreviation heap := (gmap loc (gmap string json)).

Record flags : Type := {
  authToken : string;
  ip : string;
  port : Z
}.

(** ** HTTP *)

(** [http.Header]: a map from header names to their values. *)
Abbreviation header := (gmap string (list string)).

Definition header_Add (k v : string) (hd : header) : header :=
  <[k := (default [] (hd !! k) ++ [v])%list]> hd.

Definition header_Set (k v : string) (hd : header) : header :=
  <[k := [v]]> hd.

(** A request as [client.Do] receives it; [B] is the type of encoded
    bodies. *)
Record request (B : Type) : Type := {
  r_method : string;
  r_url : string;
  r_header : header;
  r_body : option B
}.
Arguments r_method {B} r.
Arguments r_url {B} r.
Arguments r_header {B} r.
Arguments r_body {B} r.

(** What the program reads of a response: the status code and the body,
    [None] when reading the body fails. *)
Record response : Type := {
  StatusCode : Z;
  Body : option string
}.

(** The encoder and the network.  [client_Do] answers a request in a state
    of the world with a response, or [None] for a transport error, and the
    next state. *)
Class NetLib `{FL : FloatLib} : Type := {
  encoded : Type;
  world : Type;
  (** [json.Marshal(payload)] of a map (or of the nil map) *)
  json_Marshal : heap -> option (gmap string json) -> option encoded;
  (** whether [http.NewRequest] accepts the URL *)
  url_ok : string -> bool;
  (** [client.Do(req)] *)
  client_Do : request encoded -> world -> option response * world
}.

(** What a run leaves outside the process, in order. *)
Inductive event (B : Type) : Type :=
  | EvRequest (r : request B)
  | EvPrint (line : string).
Arguments EvRequest {B} r.
Arguments EvPrint {B} line.

(** ** The flag package, as far as [main] uses it *)

Inductive flag_value : Type :=
  | FlagString (s : string)
  | FlagInt (z : Z).

(** A flag set: the defined flags by name, each with the cell that holds
    its value; a pointer returned by [flag.String] is the index of a cell. *)
Record FlagSet : Type := {
  formal : list (string * nat);
  cells : list flag_value
}.

Definition flag_CommandLine : FlagSet := {| formal := []; cells := [] |}.

(** [flag.String(name, value, usage)]: a new cell holding the default. *)
Definition flag_String (name value usage : string) (f : FlagSet) : nat * FlagSet :=
  (length (cells f),
   {| formal := (formal f ++ [(name, length (cells f))])%list;
      cells := (cells f ++ [FlagString value])%list |}).

(** [flag.Int(name, value, usage)] *)
Definition flag_Int (name : string) (value : Z) (usage : string) (f : FlagSet)
    : nat * FlagSet :=
  (length (cells f),
   {| formal := (formal f ++ [(name, length (cells f))])%list;
      cells := (cells f ++ [FlagInt value])%list |}).

(** [*p] for a [*string] and for an [*int]. *)
Definition load_string (f : FlagSet) (p : nat) : string :=
  match cells f !! p with
  | Some (FlagString s) => s
  | _ => ""
  end.

Definition load_int (f : FlagSet) (p : nat) : Z :=
  match cells f !! p with
  | Some (FlagInt z) => z
  | _ => 0
  end.

(** The first three statements of [main], run with the command line
    [args].  No statement of [main] parses [args]: every pointer is
    dereferenced as soon as its flag is defined. *)
Definition main_flags (args : list string) : flags :=
  let f0 := flag_CommandLine in
  let '(p_t, f1) := flag_String "t" "" "Authorization token" f0 in
  let authToken1 := load_string f1 p_t in
  let '(p_u, f2) := flag_String "u" "localhost" "Url" f1 in
  let ip1 := load_string f2 p_u in
  let '(p_p, f3) := flag_Int "p" 8080 "Port" f2 in
  let port1 := load_int f3 p_p in
  {| authToken := authToken1; ip := ip1; port := port1 |}.

Section Program.
Context `{FL : FloatLib}.

(** The map a field of map type denotes: [None] is the nil map. *)
Definition map_at (h : heap) (b : option loc) : option (gmap string json) :=
  b ≫= (h !!.).

(** ** LoadEpssData *)

Inductive file : Type :=
  | NoSuchFile
  | Unreadable
  | Contents (s : string).

(** The [for] loop over [r.Read()], on the results the reader still has to
    deliver; [epss_list] is the slice built so far. *)
Fixpoint read_rows (recs : list (list string)) (fin : option csv_error)
    (epss_list : list epss_data) : outcome (list epss_data) :=
  match recs with
  | [] =>
      match fin with
      | None => Ret epss_list
      | Some e => Fatal (FatalCsv e)
      end
  | record :: rest =>
      cve_temp <-! index_or_panic record 0;
      f1 <-! index_or_panic record 1;
      score_temp <-! or_fatal (FatalScore f1) (strconv_ParseFloat f1);
      f2 <-! index_or_panic record 2;
      percentile_temp <-! or_fatal (FatalPercentile f2) (strconv_ParseFloat f2);
      let epss_current :=
        {| e_cve := cve_temp; e_score := score_temp;
           e_percentile := percentile_temp |} in
      read_rows rest fin (epss_list ++ [epss_current])
  end.

(** The text after the first line. *)
Definition skip_first_line (s : string) : outcome string :=
  match strings_Index s NL with
  | Some i => Ret (string_from (i + 1) s)
  | None => Fatal FatalNoNewline
  end.

(** The rows parsed from a feed text, before the final slicing. *)
Definition parse_feed `{CL : CsvLib} (text : string) : outcome (list epss_data) :=
  s <-! skip_first_line text;
  let r := csv_NewReader s in
  read_rows (pending r) (final r) [].

Definition LoadEpssData `{CL : CsvLib} (fsys : string -> file) (path : string)
    : outcome (list epss_data) :=
  match fsys path with
  | NoSuchFile => Fatal FatalOpen
  | Unreadable => Fatal FatalReadFile
  | Contents text =>
      epss_list <-! parse_feed text;
      slice_from epss_list 2
  end.

(** ** jsonq, as far as the program uses it *)

(** [query(blob, q)]: one step of a path.  A path element that [Atoi]
    accepts indexes an array, any other names a field of an object. *)
Definition query (h : heap) (blob : json) (q : string) : jq_result json :=
  match strconv_Atoi q with
  | Some index =>
      match blob with
      | JArr l =>
          if decide (index < Z.of_nat (length l)) then
            if decide (index < 0) then JqPanic (NegativeIndex index)
            else match l !! Z.to_nat index with
                 | Some v => JqOk v
                 | None => JqErr
                 end
          else JqErr
      | _ => JqErr
      end
  | None =>
      match blob with
      | JObj m =>
          match map_at h (Some m) ≫= (.!! q) with
          | Some v => JqOk v
          | None => JqErr
          end
      | _ => JqErr
      end
  end.

(** [rquery(blob, s...)]: the path from the root, then the nil check. *)
Fixpoint rquery_from (h : heap) (val : json) (s : list string) : jq_result json :=
  match s with
  | [] =>
      match val with
      | JNull => JqErr
      | _ => JqOk val
      end
  | q :: s' =>
      match query h val q with
      | JqOk v => rquery_from h v s'
      | JqErr => JqErr
      | JqPanic p => JqPanic p
      end
  end.

Definition jq_bind {A B : Type} (r : jq_result A) (k : A -> jq_result B)
    : jq_result B :=
  match r with
  | JqOk a => k a
  | JqErr => JqErr
  | JqPanic p => JqPanic p
  end.

(** A [JsonQuery] is the root map of the document. *)
Definition jq_String (h : heap) (root : loc) (s : list string) : jq_result string :=
  jq_bind (rquery_from h (JObj root) s) (fun val =>
    match val with
    | JStr x => JqOk x
    | _ => JqErr
    end).

Definition jq_Int (h : heap) (root : loc) (s : list string) : jq_result Z :=
  jq_bind (rquery_from h (JObj root) s) (fun val =>
    match val with
    | JNum x => JqOk (int_of_float64 x)
    | JStr x =>
        match strconv_ParseFloat x with
        | Some ival => JqOk (int_of_float64 ival)
        | None => JqErr
        end
    | _ => JqErr
    end).

Definition jq_Object (h : heap) (root : loc) (s : list string)
    : jq_result (option loc) :=
  jq_bind (rquery_from h (JObj root) s) (fun val =>
    match val with
    | JObj m => JqOk (Some m)
    | _ => JqErr
    end).

(** [v, err := jq.X(...); if err != nil { log.Fatal(err) }] *)
Definition jq_or_fatal {A : Type} (e : fatal) (r : jq_result A) : outcome A :=
  match r with
  | JqOk a => Ret a
  | JqErr => Fatal e
  | JqPanic p => Panic p
  end.

(** ** CreateFindingsRaw *)

(** The alias test of the source. *)
Definition is_alias (s : string) : bool := strings_Contains s "GHSA".

(** The body of the [for] loop for index [i]: the new [current_finding]. *)
Definition extract_finding (h : heap) (jq : loc) (i : Z)
    (current_finding : finding_data) : outcome finding_data :=
  cve0 <-! jq_or_fatal (FatalVulnId0 i)
    (jq_String h jq ["results"; strconv_Itoa i; "vulnerability_ids"; "0";
                     "vulnerability_id"]);
  cve1 <-! (if is_alias cve0 then
              jq_or_fatal (FatalVulnId1 i)
                (jq_String h jq ["results"; strconv_Itoa i; "vulnerability_ids";
                                 "1"; "vulnerability_id"])
            else Ret cve0);
  id1 <-! jq_or_fatal (FatalId i) (jq_Int h jq ["results"; strconv_Itoa i; "id"]);
  body1 <-! jq_or_fatal (FatalBody i) (jq_Object h jq ["results"; strconv_Itoa i]);
  Ret {| selector := i; id := id1; cve := cve1;
         epss_score := epss_score current_finding;
         epss_percentile := epss_percentile current_finding;
         body := body1 |}.

(** [for i := ...; i < findings_count; i++] with [left] iterations to go,
    that is [left = findings_count - i] when positive. *)
Fixpoint findings_loop (h : heap) (jq : loc) (left : nat) (i : Z)
    (current_finding : finding_data) (findings_list_raw : list finding_data)
    : outcome (list finding_data) :=
  match left with
  | O => Ret findings_list_raw
  | S left' =>
      current_finding' <-! extract_finding h jq i current_finding;
      findings_loop h jq left' (i + 1) current_finding'
        (findings_list_raw ++ [current_finding'])
  end.

(** The zero value of [finding_data]. *)
Definition finding_zero : finding_data :=
  {| selector := 0; id := 0; cve := ""; epss_score := float64_zero;
     epss_percentile := float64_zero; body := None |}.

Definition CreateFindingsRaw (h : heap) (jq : loc) : outcome (list finding_data) :=
  findings_count <-! jq_or_fatal FatalCount (jq_Int h jq ["count"]);
  findings_loop h jq (Z.to_nat (findings_count - 1)) 1 finding_zero [].

(** ** EnrichFindingData *)

(** The first loop: the lookup map. *)
Definition build_epssMap (epssList : list epss_data) : gmap string epss_data :=
  foldl (fun epssMap epss => <[e_cve epss := epss]> epssMap) ∅ epssList.

(** The two assignments to [finding.body]. *)
Definition write_scores (score percentile : float64) (m : gmap string json)
    : gmap string json :=
  <["epss_percentile" := JStr (fmt_Sprintf_5f percentile)]>
    (<["epss_score" := JStr (fmt_Sprintf_5f score)]> m).

(** The second loop, over the findings from left to right; every finding is
    updated in place and its body through the heap. *)
Fixpoint enrich_loop (epssMap : gmap string epss_data)
    (findingsList : list finding_data) (h : heap)
    : outcome (list finding_data * heap) :=
  match findingsList with
  | [] => Ret ([], h)
  | finding :: rest =>
      match epssMap !! cve finding with
      | Some epss =>
          let finding' :=
            {| selector := selector finding; id := id finding;
               cve := cve finding; epss_score := e_score epss;
               epss_percentile := e_percentile epss; body := body finding |} in
          match body finding with
          | Some l =>
              match h !! l with
              | Some m =>
                  let h' :=
                    <[l := write_scores (epss_score finding')
                             (epss_percentile finding') m]> h in
                  r <-! enrich_loop epssMap rest h';
                  Ret (finding' :: r.1, r.2)
              | None => Panic NilMapWrite
              end
          | None => Panic NilMapWrite
          end
      | None =>
          r <-! enrich_loop epssMap rest h;
          Ret (finding :: r.1, r.2)
      end
  end.

Definition EnrichFindingData (epssList : list epss_data)
    (findingsList : list finding_data) (h : heap)
    : outcome (list finding_data * heap) :=
  enrich_loop (build_epssMap epssList) findingsList h.

(** ** FetchFindings and PatchFindingData *)

Context `{Net : !NetLib}.

(** [http.NewRequest(method, url, body)] *)
Definition http_NewRequest (method url : string) (b : option encoded)
    : option (request encoded) :=
  if url_ok url then
    Some {| r_method := method; r_url := url; r_header := ∅; r_body := b |}
  else None.

Definition with_header (f : header -> header) (r : request encoded)
    : request encoded :=
  {| r_method := r_method r; r_url := r_url r; r_header := f (r_header r);
     r_body := r_body r |}.

(** The request [FetchFindings] sends. *)
Definition listing_request (fl : flags) : option (request encoded) :=
  let url := "http://" +:+ ip fl +:+ ":" +:+ strconv_Itoa (port fl)
             +:+ "/api/v2/findings/?active=true&limit=99999999" in
  req ← http_NewRequest "GET" url None;
  Some (with_header (header_Add "Authorization" (authToken fl)) req).

Definition FetchFindings (fl : flags) (w : world)
    : list (event encoded) * world * outcome string :=
  match listing_request fl with
  | None => ([], w, Fatal FatalNewRequest)
  | Some req =>
      match client_Do req w with
      | (None, w') => ([EvRequest req], w', Fatal FatalTransport)
      | (Some resp, w') =>
          ([EvRequest req], w', or_fatal FatalReadBody (Body resp))
      end
  end.

(** The request [PatchFindingData] sends for one finding. *)
Definition update_request (fl : flags) (finding : finding_data)
    (jsonData : encoded) : option (request encoded) :=
  let url := "http://" +:+ ip fl +:+ ":" +:+ strconv_Itoa (port fl)
             +:+ "/api/v2/findings/" +:+ strconv_Itoa (id finding) in
  req ← http_NewRequest "PUT" url (Some jsonData);
  Some (with_header
          (fun hd => header_Set "Content-Type" "application/json"
                       (header_Set "Accept" "application/json"
                          (header_Set "Authorization" (authToken fl) hd)))
          req).

(** The line printed after a response. *)
Definition report (finding : finding_data) (resp : response) : string :=
  if decide (StatusCode resp ≠ 200) then
    "Updating finding failed with status code "
      +:+ strconv_Itoa (StatusCode resp) +:+ NL
  else
    "Successfully updated finding with ID: " +:+ strconv_Itoa (id finding) +:+ NL.

Fixpoint PatchFindingData (findings_list : list finding_data) (fl : flags)
    (h : heap) (w : world) : list (event encoded) * world * outcome unit :=
  match findings_list with
  | [] => ([], w, Ret tt)
  | finding :: rest =>
      match json_Marshal h (map_at h (body finding)) with
      | None => ([], w, Fatal FatalMarshal)
      | Some jsonData =>
          match update_request fl finding jsonData with
          | None => ([], w, Fatal FatalNewRequest)
          | Some req =>
              match client_Do req w with
              | (None, w') => ([EvRequest req], w', Fatal FatalTransport)
              | (Some resp, w') =>
                  let '(tr, w'', o) := PatchFindingData rest fl h w' in
                  (EvRequest req :: EvPrint (report finding resp) :: tr, w'', o)
              end
          end
      end
  end.

End Program.

(** ** The rest of the pipeline: the decoder, the feed file, [main] *)

(** The errors [UnGzip] returns, by the call that failed. *)
Inductive ungzip_error : Type :=
  | ErrOpen          (* os.Open(source) *)
  | ErrHeader        (* gzip.NewReader(reader) *)
  | ErrCreate        (* os.Create(target) *)
  | ErrCopy.         (* io.Copy(writer, archive) *)

(** The ways the process ends before [main] returns. *)
Inductive ending : Type :=
  | EndFatal (e : fatal)               (* a [log.Fatal] of the functions above *)
  | EndPanic (p : panic)
  | EndUnmarshal                       (* CreateJsonQuery: json.Unmarshal *)
  | EndCreateFeed                      (* FetchEpssData: os.Create *)
  | EndGetFeed                         (* FetchEpssData: http.Get *)
  | EndUnGzip (e : ungzip_error).      (* FetchEpssData: UnGzip *)

(** The decoder, the file system and the gzip format. *)
Class OsLib `{FL : FloatLib} : Type := {
  (** [json.Unmarshal] of a text into a nil [map[string]interface{}]: the
      maps allocated and the address of the root, [None] when [err != nil];
      a root with no map in the heap stands for the map left nil *)
  json_Unmarshal : string -> option (heap * loc);
  (** the states of the file system *)
  files : Type;
  (** what [os.Open(name)] and the reads that follow give *)
  os_Open : files -> string -> file;
  (** [os.Create(name)]; [None] when [err != nil] *)
  os_Create : string -> files -> option files;
  (** [io.Copy] into the file created as [name] from a source that gives
      these bytes, or fails ([None]): whether [err == nil], and the file
      system after *)
  io_Copy : string -> option string -> files -> bool * files;
  (** [gzip.NewReader] on the bytes of a file: the name in the header and
      the decompressed bytes, [None] when reading them fails; [None] when
      [err != nil] *)
  gzip_NewReader : string -> option (string * option string);
  (** [filepath.Join(a, b)] *)
  filepath_Join : string -> string -> string
}.

Section Pipeline.
Context `{FL : FloatLib} `{CL : CsvLib} `{Net : !NetLib} `{Os : !OsLib}.

(** A stage of [main] runs on the network and the file system; it gives
    what it leaves outside, the state after, and its value or the way the
    process ends. *)
Definition stage (A : Type) : Type :=
  world * files -> list (event encoded) * (world * files) * (A + ending).

Definition stage_bind {A B : Type} (m : stage A) (k : A -> stage B) : stage B :=
  fun s =>
    match m s with
    | (t, s1, inl a) => let '(t', s2, r) := k a s1 in ((t ++ t')%list, s2, r)
    | (t, s1, inr e) => (t, s1, inr e)
    end.

Definition of_outcome {A : Type} (o : outcome A) : A + ending :=
  match o with
  | Ret a => inl a
  | Fatal e => inr (EndFatal e)
  | Panic p => inr (EndPanic p)
  end.

(** A function above as a stage: one that talks to the network, one that
    reads the file system, one that does neither. *)
Definition on_world {A : Type}
    (f : world -> list (event encoded) * world * outcome A) : stage A :=
  fun s => let '(t, w, o) := f s.1 in (t, (w, s.2), of_outcome o).

Definition on_files {A : Type} (f : files -> outcome A) : stage A :=
  fun s => ([], s, of_outcome (f s.2)).

Definition pure_stage {A : Type} (o : outcome A) : stage A :=
  fun s => ([], s, of_outcome o).

(** [fmt.Printf] of a text without verbs left, and [fmt.Println(line)]. *)
Definition printf (text : string) : stage unit :=
  fun s => ([EvPrint text], s, inl tt).

Definition println (line : string) : stage unit := printf (line +:+ NL).

(** The second decoding, of the same text into the map of the first,
    stores equal values under the same keys; its error is not looked at. *)
Definition CreateJsonQuery (findings : string) : stage (heap * loc) :=
  fun s =>
    match json_Unmarshal findings with
    | Some doc => ([], s, inl doc)
    | None => ([], s, inr EndUnmarshal)
    end.

Definition UnGzip (source target : string) (d : files)
    : files * option ungzip_error :=
  match os_Open d source with
  | NoSuchFile => (d, Some ErrOpen)
  | Unreadable => (d, Some ErrHeader)
  | Contents bytes =>
      match gzip_NewReader bytes with
      | None => (d, Some ErrHeader)
      | Some (name, data) =>
          let target' := filepath_Join target name in
          match os_Create target' d with
          | None => (d, Some ErrCreate)
          | Some d1 =>
              let '(copied, d2) := io_Copy target' data d1 in
              (d2, if copied then None else Some ErrCopy)
          end
      end
  end.

(** The request of [http.Get]. *)
Definition feed_request : request encoded :=
  {| r_method := "GET";
     r_url := "https://epss.cyentia.com/epss_scores-current.csv.gz";
     r_header := ∅; r_body := None |}.

(** The error of [io.Copy] is overwritten before it is looked at. *)
Definition FetchEpssData : stage unit :=
  fun s =>
    match os_Create "epss_raw.csv.gz" s.2 with
    | None => ([], s, inr EndCreateFeed)
    | Some d1 =>
        match client_Do feed_request s.1 with
        | (None, w1) => ([EvRequest feed_request], (w1, d1), inr EndGetFeed)
        | (Some response, w1) =>
            let '(_, d2) := io_Copy "epss_raw.csv.gz" (Body response) d1 in
            match UnGzip "./epss_raw.csv.gz" "./epss_raw.csv" d2 with
            | (d3, Some e) =>
                ([EvRequest feed_request], (w1, d3), inr (EndUnGzip e))
            | (d3, None) => ([EvRequest feed_request], (w1, d3), inl tt)
            end
        end
    end.

(** [CreateFindingsRaw] with its [fmt.Println("Total findings:", n)],
    printed once the count is read. *)
Definition CreateFindingsRaw_stage (h : heap) (jq : loc)
    : stage (list finding_data) :=
  fun s =>
    (match jq_Int h jq ["count"] with
     | JqOk n => [EvPrint ("Total findings: " +:+ strconv_Itoa n +:+ NL)]
     | _ => []
     end,
     s, of_outcome (CreateFindingsRaw h jq)).

Definition main (args : list string) : stage unit :=
  let flags := main_flags args in
  stage_bind (println "Starting EPSS enrichment...") (fun _ =>
  stage_bind (on_world (FetchFindings flags)) (fun findings =>
  stage_bind (println "Fetched all active findings...") (fun _ =>
  stage_bind (CreateJsonQuery findings) (fun jq =>
  stage_bind (CreateFindingsRaw_stage jq.1 jq.2) (fun findings_list =>
  stage_bind (printf (strconv_Itoa (Z.of_nat (length findings_list))
                        +:+ " findings loaded..." +:+ NL)) (fun _ =>
  stage_bind (println "Fetching EPSS data...") (fun _ =>
  stage_bind FetchEpssData (fun _ =>
  stage_bind (on_files (fun d => LoadEpssData (os_Open d) "./epss_raw.csv"))
    (fun epss_data =>
  stage_bind (printf (strconv_Itoa (Z.of_nat (length epss_data))
                        +:+ " EPSS scores loaded..." +:+ NL)) (fun _ =>
  stage_bind (pure_stage (EnrichFindingData epss_data findings_list jq.1))
    (fun enriched =>
  stage_bind (println "Enriched findings...") (fun _ =>
  stage_bind (on_world (PatchFindingData enriched.1 flags enriched.2)) (fun _ =>
  println "Findings patched."))))))))))))).

End Pipeline.

(** ** Notions used in the statements *)

Section Notions.
Context `{FL : FloatLib}.

(** A row is the reading of a CSV record: its first field, and its second
    and third fields as numbers. *)
Definition parsed_row (record : list string) (e : epss_data) : Prop :=
  exists f1 f2 : string,
    record !! 0%nat = Some (e_cve e) /\
    record !! 1%nat = Some f1 /\ strconv_ParseFloat f1 = Some (e_score e) /\
    record !! 2%nat = Some f2 /\ strconv_ParseFloat f2 = Some (e_percentile e).

(** The last row of a list that carries the identifier [k]. *)
Definition last_row (k : string) (rows : list epss_data) : option epss_data :=
  last (filter (fun e => e_cve e = k) rows).

(** The value [v'] is the field [q] of the object [v]. *)
Definition field_at (h : heap) (v : json) (q : string) (v' : json) : Prop :=
  exists (m : loc) (mo : gmap string json),
    v = JObj m /\ h !! m = Some mo /\ mo !! q = Some v'.

(** The value [r] is the element of index [i] of the array [results] of the
    document rooted at [jq]. *)
Definition record_at (h : heap) (jq : loc) (i : Z) (r : json) : Prop :=
  exists results : list json,
    field_at h (JObj jq) "results" (JArr results) /\
    0 <= i /\ results !! Z.to_nat i = Some r.

(** The string [s] is the identifier at position [p] of the
    vulnerability-identifier list of record [i]. *)
Definition identifier_at (h : heap) (jq : loc) (i : Z) (p : nat) (s : string)
    : Prop :=
  exists (r : json) (ids : list json) (o : json),
    record_at h jq i r /\
    field_at h r "vulnerability_ids" (JArr ids) /\
    ids !! p = Some o /\
    field_at h o "vulnerability_id" (JStr s).

(** The two scores of a finding set from an entry. *)
Definition with_scores (f : finding_data) (e : epss_data) : finding_data :=
  {| selector := selector f; id := id f; cve := cve f;
     epss_score := e_score e; epss_percentile := e_percentile e;
     body := body f |}.

(** What the join makes of one finding. *)
Definition enrich_record (epssMap : gmap string epss_data) (f : finding_data)
    : finding_data :=
  match epssMap !! cve f with
  | Some e => with_scores f e
  | None => f
  end.

(** The entry whose scores the join writes into the map at [l] when it
    visits [f], if it writes there. *)
Definition hit (epssMap : gmap string epss_data) (l : loc) (f : finding_data)
    : option epss_data :=
  if decide (body f = Some l) then epssMap !! cve f else None.

(** The findings whose identifier is in the map have a body to write to. *)
Definition writable (epssMap : gmap string epss_data) (h : heap)
    (f : finding_data) : Prop :=
  is_Some (epssMap !! cve f) -> is_Some (map_at h (body f)).

(** The map at [l] after the join has visited [fs]. *)
Definition payload_after (epssMap : gmap string epss_data)
    (fs : list finding_data) (l : loc) (m : gmap string json)
    : gmap string json :=
  foldl (fun m f =>
           match hit epssMap l f with
           | Some e => write_scores (e_score e) (e_percentile e) m
           | None => m
           end) m fs.

(** No other finding of the sequence shares the body of the finding [f] at
    position [i]. *)
Definition owns_body (fs : list finding_data) (i : nat) (f : finding_data)
    : Prop :=
  forall (j : nat) (g : finding_data),
    fs !! j = Some g -> body g = body f -> j = i.
End Notions.

(** The requests and the printed lines of a trace, in order. *)
Definition requests_of {B : Type} (tr : list (event B)) : list (request B) :=
  omap (fun ev => match ev with EvRequest r => Some r | EvPrint _ => None end) tr.

Definition prints_of {B : Type} (tr : list (event B)) : list string :=
  omap (fun ev => match ev with EvRequest _ => None | EvPrint s => Some s end) tr.

Section NotionsNet.
Context `{FL : FloatLib} `{Net : !NetLib}.

(** The update call for one finding, when its body encodes and its URL is
    accepted. *)
Definition update_call (fl : flags) (h : heap) (f : finding_data)
    : option (request encoded) :=
  jsonData ← json_Marshal h (map_at h (body f));
  update_request fl f jsonData.

(** The responses received for the findings, in order, up to the first
    finding whose call cannot be built or is not answered. *)
Fixpoint replies (fl : flags) (h : heap) (fs : list finding_data) (w : world)
    : list response :=
  match fs with
  | [] => []
  | f :: rest =>
      match update_call fl h f with
      | None => []
      | Some req =>
          match client_Do req w with
          | (Some resp, w') => resp :: replies fl h rest w'
          | (None, _) => []
          end
      end
  end.
End NotionsNet.

(** ** Notions used in the statements on the listing *)

Section NotionsListing.
Context `{FL : FloatLib}.

(** The finding [f] is the reading of record [i]: the record is an object,
    its identifier list gives the identifier of [f] by the alias rule, and
    its [id] field is a number. *)
Definition reads_record (h : heap) (jq : loc) (i : Z) (f : finding_data)
    : Prop :=
  exists (m : loc) (s0 : string) (x : float64),
    record_at h jq i (JObj m) /\
    identifier_at h jq i 0 s0 /\
    (if is_alias s0 then identifier_at h jq i 1 (cve f) else cve f = s0) /\
    field_at h (JObj m) "id" (JNum x) /\
    f = {| selector := i; id := int_of_float64 x; cve := cve f;
           epss_score := float64_zero; epss_percentile := float64_zero;
           body := Some m |}.
End NotionsListing.

(** A path element that is no negative index. *)
Definition safe_step (q : string) : Prop :=
  forall idx : Z, strconv_Atoi q = Some idx -> 0 <= idx.

(** ** Notions used in the statements on [main] *)

(** The configuration with the three defaults of the flags. *)
Definition default_flags : flags :=
  {| authToken := ""; ip := "localhost"; port := 8080 |}.

(** The panics of the reading of the feed: an index past the end of a
    record of fewer than three fields, and the slicing of fewer than two
    rows. *)
Definition feed_panic (p : panic) : Prop :=
  (exists i n : nat, p = IndexOutOfRange i n /\ (n <= i <= 2)%nat) \/
  (exists n : nat, p = SliceOutOfRange 2 n /\ (n < 2)%nat).

Section NotionsMain.
Context `{FL : FloatLib} `{Net : !NetLib}.

(** The listing request under the defaults. *)
Definition default_listing : request encoded :=
  {| r_method := "GET";
     r_url := "http://localhost:8080/api/v2/findings/?active=true&limit=99999999";
     r_header := {[ "Authorization" := [""] ]};
     r_body := None |}.

End NotionsMain.

(** ** Executable instances of the library interfaces

    They serve to run the program on concrete inputs, in the last part of
    the file.  The general theorems do not depend on them: each is proved
    for every instance. *)
Module Ref.

(** *** Numbers

    A decimal fraction [mant * 10^-scale] stands for the [float64] nearest
    to it.  On the plain decimal literals evaluated below (a sign, digits,
    at most five of them after the point) parsing, truncation to [int] and
    printing with five decimals agree with binary64, whose rounding error is
    far below the sixth decimal.  Exponents, hexadecimal literals, digit
    separators, infinities and NaN are not covered: [ParseFloat] rejects
    them here. *)
Record dec : Type := { mant : Z; scale : nat }.

Fixpoint dec_norm (m : Z) (k : nat) : dec :=
  match k with
  | O => {| mant := m; scale := O |}
  | S k' =>
      if decide (m mod 10 = 0) then dec_norm (m / 10) k'
      else {| mant := m; scale := k |}
  end.

Definition split_sign (s : string) : bool * string :=
  match s with
  | String a s' =>
      if Ascii.eqb a "-" then (true, s')
      else if Ascii.eqb a "+" then (false, s')
      else (false, s)
  | EmptyString => (false, s)
  end.

(** The text before and after the first point, if any. *)
Fixpoint split_point (s : string) : string * string :=
  match s with
  | EmptyString => (EmptyString, EmptyString)
  | String a s' =>
      if Ascii.eqb a "." then (EmptyString, s')
      else let '(i, f) := split_point s' in (String a i, f)
  end.

Definition ParseFloat (s : string) : option dec :=
  let '(neg, digits) := split_sign s in
  let '(i, f) := split_point digits in
  if decide (i = EmptyString ∧ f = EmptyString) then None
  else
    m ← Z.of_uint <$> NilEmpty.uint_of_string (i +:+ f);
    Some (dec_norm (if neg then - m else m) (String.length f)).

(** [width] decimal digits of [n], zero-padded. *)
Fixpoint pad_digits (width : nat) (n : Z) : string :=
  match width with
  | O => EmptyString
  | S w' => pad_digits w' (n / 10) +:+ strconv_Itoa (n mod 10)
  end.

(** Rounding to the nearest multiple of [10^-5], ties to even. *)
Definition round5 (d : dec) : Z :=
  let num := Z.abs (mant d) * 10 ^ 5 in
  let den := 10 ^ Z.of_nat (scale d) in
  let q := num / den in
  let r := num mod den in
  if decide (den < 2 * r ∨ (den = 2 * r ∧ Z.odd q = true)) then q + 1 else q.

Definition Sprintf_5f (d : dec) : string :=
  let q := round5 d in
  (if decide (mant d < 0) then "-" else "")
    +:+ strconv_Itoa (q / 10 ^ 5) +:+ "." +:+ pad_digits 5 (q mod 10 ^ 5).

(** Truncation toward zero; outside the range of [int] the conversion is
    implementation-defined and yields the least [int], as on amd64. *)
Definition to_int (d : dec) : Z :=
  let z := Z.quot (mant d) (10 ^ Z.of_nat (scale d)) in
  if decide (int_range z) then z else - 2 ^ 63.

Lemma to_int_range (d : dec) : int_range (to_int d).
Proof. unfold to_int. case_decide; [done | unfold int_range; lia]. Qed.

#[export] Instance float_lib : FloatLib := {|
  float64 := dec;
  float64_zero := {| mant := 0; scale := O |};
  strconv_ParseFloat := ParseFloat;
  fmt_Sprintf_5f := Sprintf_5f;
  int_of_float64 := to_int;
  int_of_float64_range := to_int_range
|}.

(** *** The CSV reader

    [encoding/csv] with its default configuration: comma separated, no
    comment character, quoted fields with doubled quotes, a bare quote in an
    unquoted field is an error, empty lines are skipped, and every record
    must have as many fields as the first one. *)

(** [readLine] replaces a carriage return before a line feed by nothing and
    drops a carriage return that ends the text. *)
Fixpoint normalize_newlines (s : string) : string :=
  match s with
  | EmptyString => EmptyString
  | String a s' =>
      if Ascii.eqb a (ascii_of_nat 13) then
        match s' with
        | EmptyString => EmptyString
        | String b _ =>
            if Ascii.eqb b (ascii_of_nat 10) then normalize_newlines s'
            else String a (normalize_newlines s')
        end
      else String a (normalize_newlines s')
  end.

Inductive csv_mode : Type :=
  | RecordStart                 (* before the first byte of a record *)
  | FieldStart                  (* after a comma *)
  | Unquoted (buf : string)     (* in a field that did not open with a quote *)
  | Quoted (buf : string)       (* in a quoted field *)
  | QuoteSeen (buf : string).   (* after a quote met in a quoted field *)

Definition snoc (buf : string) (a : ascii) : string := buf +:+ String a EmptyString.

(** A record is complete: the check of the field count. *)
Definition close_record (fields : list string) (expected : option nat)
    : option (option nat) :=
  match expected with
  | None => Some (Some (length fields))
  | Some n => if decide (length fields = n) then Some expected else None
  end.

Definition quote_char : ascii := ascii_of_nat 34.
Definition comma_char : ascii := ascii_of_nat 44.
Definition lf_char : ascii := ascii_of_nat 10.

(** The reader as a machine over the bytes of the text: [fields] are the
    fields of the record being read, [expected] the field count fixed by the
    first record, [done] the records read so far. *)
Fixpoint scan (s : string) (mode : csv_mode) (fields : list string)
    (expected : option nat) (done : list (list string)) : csv_Reader :=
  let stop e := {| pending := done; final := Some e |} in
  let close buf (k : option nat -> list (list string) -> csv_Reader) :=
    match close_record (fields ++ [buf])%list expected with
    | Some expected' => k expected' (done ++ [(fields ++ [buf])%list])%list
    | None => stop ErrFieldCount
    end in
  match s with
  | EmptyString =>
      match mode with
      | RecordStart => {| pending := done; final := None |}
      | FieldStart => close EmptyString (fun _ d => {| pending := d; final := None |})
      | Unquoted buf | QuoteSeen buf =>
          close buf (fun _ d => {| pending := d; final := None |})
      | Quoted _ => stop ErrQuote
      end
  | String a s' =>
      match mode with
      | RecordStart =>
          if Ascii.eqb a lf_char then scan s' RecordStart fields expected done
          else if Ascii.eqb a quote_char then
            scan s' (Quoted EmptyString) fields expected done
          else if Ascii.eqb a comma_char then
            scan s' FieldStart (fields ++ [EmptyString])%list expected done
          else scan s' (Unquoted (String a EmptyString)) fields expected done
      | FieldStart =>
          if Ascii.eqb a lf_char then
            close EmptyString (fun e d => scan s' RecordStart [] e d)
          else if Ascii.eqb a quote_char then
            scan s' (Quoted EmptyString) fields expected done
          else if Ascii.eqb a comma_char then
            scan s' FieldStart (fields ++ [EmptyString])%list expected done
          else scan s' (Unquoted (String a EmptyString)) fields expected done
      | Unquoted buf =>
          if Ascii.eqb a lf_char then
            close buf (fun e d => scan s' RecordStart [] e d)
          else if Ascii.eqb a quote_char then stop ErrBareQuote
          else if Ascii.eqb a comma_char then
            scan s' FieldStart (fields ++ [buf])%list expected done
          else scan s' (Unquoted (snoc buf a)) fields expected done
      | Quoted buf =>
          if Ascii.eqb a quote_char then scan s' (QuoteSeen buf) fields expected done
          else scan s' (Quoted (snoc buf a)) fields expected done
      | QuoteSeen buf =>
          if Ascii.eqb a lf_char then
            close buf (fun e d => scan s' RecordStart [] e d)
          else if Ascii.eqb a quote_char then
            scan s' (Quoted (snoc buf a)) fields expected done
          else if Ascii.eqb a comma_char then
            scan s' FieldStart (fields ++ [buf])%list expected done
          else stop ErrQuote
      end
  end.

#[export] Instance csv_lib : CsvLib := {|
  csv_NewReader := fun s => scan (normalize_newlines s) RecordStart [] None []
|}.

(** *** The encoder and the network

    An encoded body is the map that was encoded; the world is the list of
    the answers the server still has to give, [None] for a call that fails
    in transport. *)
Definition no_control (s : string) : bool :=
  forallb (fun a => (32 <? nat_of_ascii a)%nat && negb (nat_of_ascii a =? 127)%nat)
    (list_ascii_of_string s).

#[export] Instance net_lib : NetLib := {|
  encoded := option (gmap string json);
  world := list (option response);
  json_Marshal := fun _ payload => Some payload;
  url_ok := no_control;
  client_Do := fun _ w =>
    match w with
    | [] => (None, [])
    | a :: w' => (a, w')
    end
|}.

End Ref.

(** ** Concrete inputs *)
Module Sample.
Import Ref.

Definition num (z : Z) : json := JNum {| mant := z; scale := O |}.

(** The feed as published: the metadata line, the column names, one row. *)
Definition feed_published : string :=
  "#model_version:v2023.03.01,score_date:2024-05-01" +:+ NL
  +:+ "cve,epss,percentile" +:+ NL
  +:+ "CVE-2024-0001,0.12345,0.67890" +:+ NL.

(** The metadata line and the column names only. *)
Definition feed_header_only : string :=
  "#model_version:v2023.03.01,score_date:2024-05-01" +:+ NL
  +:+ "cve,epss,percentile" +:+ NL.

(** The metadata line and one row. *)
Definition feed_one_row : string :=
  "#model_version:v2023.03.01,score_date:2024-05-01" +:+ NL
  +:+ "CVE-2024-0001,0.12345,0.67890" +:+ NL.

(** A feed of numeric rows only, with a repeated identifier. *)
Definition feed_numeric : string :=
  "#model_version:v2023.03.01,score_date:2024-05-01" +:+ NL
  +:+ "CVE-1999-0001,0.00383,0.72100" +:+ NL
  +:+ "CVE-1999-0002,0.02091,0.88500" +:+ NL
  +:+ "CVE-2024-0001,0.5,0.6" +:+ NL
  +:+ "CVE-2024-0003,0.00043,0.08000" +:+ NL
  +:+ "CVE-2024-0001,0.12345,0.67890" +:+ NL.

Definition disk (text : string) : string -> file :=
  fun path => if decide (path = "./epss_raw.csv") then Contents text else NoSuchFile.

Definition entry (c : string) (s p : Z) : epss_data :=
  {| e_cve := c; e_score := dec_norm s 5; e_percentile := dec_norm p 5 |}.

(** The listing of the end-to-end scenario:
    [{"count":3,"results":[{},
      {"id":10,"vulnerability_ids":[{"vulnerability_id":"CVE-2024-0001"}]},
      {"id":11,"vulnerability_ids":[{"vulnerability_id":"GHSA-xxxx"},
                                    {"vulnerability_id":"CVE-2024-0002"}]}]}]
    with its root map at address 1. *)
Definition listing : heap :=
  list_to_map
    [ (1%positive, list_to_map [("count", num 3);
                                ("results", JArr [JObj 2; JObj 3; JObj 5])]);
      (2%positive, ∅);
      (3%positive, list_to_map [("id", num 10);
                                ("vulnerability_ids", JArr [JObj 4])]);
      (4%positive, list_to_map [("vulnerability_id", JStr "CVE-2024-0001")]);
      (5%positive, list_to_map [("id", num 11);
                                ("vulnerability_ids", JArr [JObj 6; JObj 7])]);
      (6%positive, list_to_map [("vulnerability_id", JStr "GHSA-xxxx")]);
      (7%positive, list_to_map [("vulnerability_id", JStr "CVE-2024-0002")]) ].

(** [{"count":2,"results":[{},
      {"id":10,"vulnerability_ids":[{"vulnerability_id":""}]}]}] *)
Definition listing_empty_id : heap :=
  list_to_map
    [ (1%positive, list_to_map [("count", num 2);
                                ("results", JArr [JObj 2; JObj 3])]);
      (2%positive, ∅);
      (3%positive, list_to_map [("id", num 10);
                                ("vulnerability_ids", JArr [JObj 4])]);
      (4%positive, list_to_map [("vulnerability_id", JStr "")]) ].

(** [{"count":0,"results":[]}] *)
Definition listing_none : heap :=
  list_to_map
    [ (1%positive, list_to_map [("count", num 0); ("results", JArr [])]) ].

Definition finding (i ident : Z) (c : string) (b : loc) : finding_data :=
  {| selector := i; id := ident; cve := c; epss_score := float64_zero;
     epss_percentile := float64_zero; body := Some b |}.

Definition ok (code : Z) : option response :=
  Some {| StatusCode := code; Body := Some "" |}.

Definition cli : list string :=
  ["-t"; "Token 0123456789abcdef"; "-u"; "dojo.example.org"; "-p"; "9000"].

Definition feed_path : string := "./epss_raw.csv".

(** The rows of [feed_numeric] that [LoadEpssData] returns. *)
Definition loaded : list epss_data :=
  [ entry "CVE-2024-0001" 50000 60000;
    entry "CVE-2024-0003" 43 8000;
    entry "CVE-2024-0001" 12345 67890 ].

(** What [CreateFindingsRaw] returns on [listing]. *)
Definition extracted : list finding_data :=
  [ finding 1 10 "CVE-2024-0001" 3; finding 2 11 "CVE-2024-0002" 5 ].

(** A score list with the identifier of the first finding only. *)
Definition scores : list epss_data := [ entry "CVE-2024-0001" 12345 67890 ].

(** Three findings to dispatch. *)
Definition batch : list finding_data :=
  [ finding 1 10 "CVE-2024-0001" 3; finding 2 11 "CVE-2024-0002" 5;
    finding 3 12 "CVE-2024-0003" 2 ].

(** The heap after the join of [scores] with [extracted]. *)
Definition joined : heap :=
  <[3%positive :=
      <["epss_percentile" := JStr "0.67890"]>
        (<["epss_score" := JStr "0.12345"]>
           (list_to_map [("id", num 10); ("vulnerability_ids", JArr [JObj 4])]))]>
    listing.

Definition enriched : list finding_data :=
  [ with_scores (finding 1 10 "CVE-2024-0001" 3)
      (entry "CVE-2024-0001" 12345 67890);
    finding 2 11 "CVE-2024-0002" 5 ].

(** The requests of the updates of [batch] under a given configuration. *)
Definition put (fl : flags) (f : finding_data) : request encoded :=
  {| r_method := "PUT";
     r_url := "http://" +:+ ip fl +:+ ":" +:+ strconv_Itoa (port fl)
              +:+ "/api/v2/findings/" +:+ strconv_Itoa (id f);
     r_header := list_to_map [("Authorization", [authToken fl]);
                              ("Accept", ["application/json"]);
                              ("Content-Type", ["application/json"])];
     r_body := Some (map_at joined (body f)) |}.

Definition local : flags :=
  {| authToken := ""; ip := "localhost"; port := 8080 |}.

(** A server that gives these answers, in order. *)
Definition server (answers : list (option response)) : world := answers.

(** The first line of the feeds above and the rows of [feed_numeric]. *)
Definition feed_first : string :=
  "#model_version:v2023.03.01,score_date:2024-05-01".

Definition numeric_rows : list epss_data :=
  [ entry "CVE-1999-0001" 383 72100;
    entry "CVE-1999-0002" 2091 88500;
    entry "CVE-2024-0001" 50000 60000;
    entry "CVE-2024-0003" 43 8000;
    entry "CVE-2024-0001" 12345 67890 ].


(** A second record with fewer fields than the first. *)
Definition feed_field_count : string :=
  feed_first +:+ NL
  +:+ "CVE-2024-0001,0.12345,0.67890" +:+ NL
  +:+ "CVE-2024-0003,0.00043" +:+ NL.

(** [{"count":3,"results":[{},
      {"id":10,"vulnerability_ids":[{"vulnerability_id":"CVE-2024-0001"}]}]}]:
    the count is one more than the number of records. *)
Definition listing_short : heap :=
  list_to_map
    [ (1%positive, list_to_map [("count", num 3);
                                ("results", JArr [JObj 2; JObj 3])]);
      (2%positive, ∅);
      (3%positive, list_to_map [("id", num 10);
                                ("vulnerability_ids", JArr [JObj 4])]);
      (4%positive, list_to_map [("vulnerability_id", JStr "CVE-2024-0001")]) ].

(** A score list with no identifier of [extracted]. *)
Definition scores_apart : list epss_data :=
  [ entry "CVE-1999-0001" 383 72100; entry "CVE-1999-0002" 2091 88500 ].

(** Two findings on one body, each with an identifier of [numeric_rows]. *)
Definition sharing : list finding_data :=
  [ finding 1 10 "CVE-1999-0001" 3; finding 2 11 "CVE-1999-0002" 3;
    finding 3 12 "CVE-2024-0002" 5 ].

(** [{"count":3,"results":[{},
      {"id":10,"vulnerability_ids":[{"vulnerability_id":"CVE-2024-0001"}]},
      {"id":11,"vulnerability_ids":[{"vulnerability_id":"GHSA-xxxx"}]}]}]:
    the second finding has an alias and nothing else. *)
Definition listing_alias_only : heap :=
  list_to_map
    [ (1%positive, list_to_map [("count", num 3);
                                ("results", JArr [JObj 2; JObj 3; JObj 5])]);
      (2%positive, ∅);
      (3%positive, list_to_map [("id", num 10);
                                ("vulnerability_ids", JArr [JObj 4])]);
      (4%positive, list_to_map [("vulnerability_id", JStr "CVE-2024-0001")]);
      (5%positive, list_to_map [("id", num 11);
                                ("vulnerability_ids", JArr [JObj 6])]);
      (6%positive, list_to_map [("vulnerability_id", JStr "GHSA-xxxx")]) ].

End Sample.

(** ** An executable decoder and file system

    They serve to run [main] on concrete inputs. *)
Module RefOs.
Import Ref Sample.

(** A name between quotes. *)
Definition quoted (s : string) : string :=
  String quote_char (s +:+ String quote_char EmptyString).

(** The text of [listing]. *)
Definition listing_text : string :=
  "{" +:+ quoted "count" +:+ ":3," +:+ quoted "results" +:+ ":[{},{"
  +:+ quoted "id" +:+ ":10," +:+ quoted "vulnerability_ids" +:+ ":[{"
  +:+ quoted "vulnerability_id" +:+ ":" +:+ quoted "CVE-2024-0001" +:+ "}]},{"
  +:+ quoted "id" +:+ ":11," +:+ quoted "vulnerability_ids" +:+ ":[{"
  +:+ quoted "vulnerability_id" +:+ ":" +:+ quoted "GHSA-xxxx" +:+ "},{"
  +:+ quoted "vulnerability_id" +:+ ":" +:+ quoted "CVE-2024-0002" +:+ "}]}]}".

(** The decoder is given by its graph on the one text decoded below; every
    other text is refused. *)
Definition decode (text : string) : option (heap * loc) :=
  if decide (text = listing_text) then Some (listing, 1%positive) else None.

(** The text after a prefix. *)
Fixpoint strip_prefix (p s : string) : option string :=
  match p, s with
  | EmptyString, _ => Some s
  | String a p', String b s' =>
      if Ascii.eqb a b then strip_prefix p' s' else None
  | String _ _, EmptyString => None
  end.

(** [filepath.Clean] on the paths of the program: a leading [./] goes. *)
Definition clean (path : string) : string :=
  default path (strip_prefix "./" path).

(** A stand-in for the gzip format: the bytes [gz:] and then the data, with
    no name in the header. *)
Definition gunzip (bytes : string) : option (string * option string) :=
  data ← strip_prefix "gz:" bytes; Some (EmptyString, Some data).

(** The files by their cleaned names.  Creating a file truncates it, copying
    replaces its content; a source that fails leaves it as it is. *)
#[export] Instance os_lib : OsLib := {|
  json_Unmarshal := decode;
  files := gmap string string;
  os_Open := fun d name =>
    match d !! clean name with
    | Some bytes => Contents bytes
    | None => NoSuchFile
    end;
  os_Create := fun name d => Some (<[clean name := EmptyString]> d);
  io_Copy := fun name source d =>
    match source with
    | Some bytes => (true, <[clean name := bytes]> d)
    | None => (false, d)
    end;
  gzip_NewReader := gunzip;
  filepath_Join := fun a b =>
    if decide (b = EmptyString) then clean a else clean a +:+ "/" +:+ b
|}.

(** A response with status 200 and this body. *)
Definition page (body : string) : option response :=
  Some {| StatusCode := 200; Body := Some body |}.

(** A server that answers the listing request with [listing_text], the
    request for the feed with the archive of [feed], and then gives
    [answers]; the file system starts empty. *)
Definition site (feed : string) (answers : list (option response))
    : world * files :=
  (server (page listing_text :: page ("gz:" +:+ feed) :: answers), ∅).


Definition run_cut : list (event encoded) * (world * files) * (unit + ending) :=
  main cli (site feed_numeric [ok 200]).

Definition run_one_row
    : list (event encoded) * (world * files) * (unit + ending) :=
  main cli (site feed_one_row [ok 200; ok 404]).

End RefOs.

(** ** Strings and integers *)

Lemma index_NL_cons (b : ascii) (t : string) :
  String.index 0 NL (String b t) =
  if Ascii.eqb "010" b then Some 0%nat else S <$> String.index 0 NL t.
Proof.
  destruct (Ascii.eqb_spec "010" b) as [<-|Hb].
  - destruct t; reflexivity.
  - change (String.index 0 NL (String b t)) with
      (if String.prefix NL (String b t) then Some 0%nat
       else match String.index 0 NL t with Some n => Some (S n) | None => None end).
    replace (String.prefix NL (String b t)) with false.
    + by destruct (String.index 0 NL t).
    + unfold NL. cbn -[ascii_dec]. by destruct (ascii_dec _ b).
Qed.

Lemma index_newline (text : string) (i : nat) :
  String.index 0 NL text = Some i ->
  exists first : string,
    text = first +:+ NL +:+ string_from (i + 1) text /\
    String.index 0 NL first = None.
Proof.
  revert i. induction text as [|b t IH]; intros i.
  - discriminate.
  - rewrite index_NL_cons. destruct (Ascii.eqb_spec "010" b) as [<-|Hb].
    + intros [= <-]. by exists EmptyString.
    + destruct (String.index 0 NL t) as [n|] eqn:Hn; [|discriminate].
      intros [= <-]. destruct (IH n eq_refl) as (first & Ht & Hf).
      exists (String b first). split.
      * change (String b t = String b (first +:+ NL +:+ string_from (n + 1) t)).
        f_equal. exact Ht.
      * rewrite index_NL_cons, Hf. by destruct (Ascii.eqb_spec "010" b).
Qed.

Section Feed.
Context `{FL : FloatLib} `{CL : CsvLib}.

Lemma skip_first_line_Ret (text s : string) :
  skip_first_line text = Ret s ->
  exists first : string,
    text = first +:+ NL +:+ s /\ strings_Contains first NL = false.
Proof.
  unfold skip_first_line, strings_Contains, strings_Index.
  destruct (String.index 0 NL text) as [i|] eqn:Hi; [|discriminate].
  intros [= <-]. destruct (index_newline _ _ Hi) as (first & Ht & Hf).
  exists first. by rewrite Hf.
Qed.

(** The loop reads every record, in order, until the reader reports the end
    of the text. *)
Lemma read_rows_Ret (recs : list (list string)) (fin : option csv_error)
    (acc l : list epss_data) :
  read_rows recs fin acc = Ret l ->
  fin = None /\ exists rows, Forall2 parsed_row recs rows /\ l = (acc ++ rows)%list.
Proof.
  revert acc. induction recs as [|record rest IH]; intros acc; simpl.
  - destruct fin; [discriminate|]. intros [= <-]. split; [done|].
    exists []. split; [constructor | by rewrite app_nil_r].
  - unfold index_or_panic.
    destruct (record !! 0%nat) as [c|] eqn:H0; simpl; [|discriminate].
    destruct (record !! 1%nat) as [f1|] eqn:H1; simpl; [|discriminate].
    destruct (strconv_ParseFloat f1) as [x|] eqn:Hx; simpl; [|discriminate].
    destruct (record !! 2%nat) as [f2|] eqn:H2; simpl; [|discriminate].
    destruct (strconv_ParseFloat f2) as [y|] eqn:Hy; simpl; [|discriminate].
    intros Hl. destruct (IH _ Hl) as (Hfin & rows & Hrows & ->).
    split; [done|].
    exists ({| e_cve := c; e_score := x; e_percentile := y |} :: rows). split.
    + constructor; [|done]. exists f1, f2. simpl. done.
    + by rewrite <- app_assoc.
Qed.

Lemma read_rows_complete (recs : list (list string)) (rows acc : list epss_data) :
  Forall2 parsed_row recs rows ->
  read_rows recs None acc = Ret (acc ++ rows)%list.
Proof.
  intros HF. revert acc. induction HF as [|record e rest rows He _ IH]; intros acc.
  - simpl. by rewrite app_nil_r.
  - destruct He as (f1 & f2 & H0 & H1 & Hx & H2 & Hy). simpl.
    unfold index_or_panic. rewrite H0, H1. simpl. rewrite Hx. simpl.
    rewrite H2. simpl. rewrite Hy. simpl. rewrite IH.
    destruct e; simpl. by rewrite <- app_assoc.
Qed.

Lemma LoadEpssData_Ret (fsys : string -> file) (path : string)
    (l : list epss_data) :
  LoadEpssData fsys path = Ret l ->
  exists (text : string) (rows : list epss_data),
    fsys path = Contents text /\ parse_feed text = Ret rows /\
    (2 <= length rows)%nat /\ l = drop 2 rows.
Proof.
  unfold LoadEpssData. destruct (fsys path) as [| |text]; try discriminate.
  destruct (parse_feed text) as [rows| |] eqn:Hp; simpl; try discriminate.
  unfold slice_from. case_decide; [|discriminate]. intros [= <-].
  by exists text, rows.
Qed.

(** C1. For every feed text that [LoadEpssData] accepts, the text is a
    first line, a line break and a remainder; the rows are the readings, in
    order, of the CSV records of the remainder; and exactly the first two
    rows are removed: the returned list is the row list minus its first two
    elements. *)
Theorem C1_first_two_rows_dropped (fsys : string -> file) (path : string)
    (l : list epss_data) :
  LoadEpssData fsys path = Ret l ->
  exists (first rest : string) (rows : list epss_data) (r0 r1 : epss_data),
    fsys path = Contents (first +:+ NL +:+ rest) /\
    strings_Contains first NL = false /\
    final (csv_NewReader rest) = None /\
    Forall2 parsed_row (pending (csv_NewReader rest)) rows /\
    rows = r0 :: r1 :: l /\
    l = drop 2 rows.
Proof.
  intros Hl. destruct (LoadEpssData_Ret _ _ _ Hl) as (text & rows & Hf & Hp & Hlen & ->).
  unfold parse_feed in Hp.
  destruct (skip_first_line text) as [rest| |] eqn:Hs; simpl in Hp; try discriminate.
  destruct (skip_first_line_Ret _ _ Hs) as (first & -> & Hfirst).
  destruct (read_rows_Ret _ _ _ _ Hp) as (Hfin & rows' & Hrows & Heq).
  simpl in Heq. subst rows'.
  destruct rows as [|r0 [|r1 rows]]; simpl in Hlen; try lia.
  exists first, rest, (r0 :: r1 :: rows), r0, r1. simpl. done.
Qed.

(** C10, as the code has it.  [LoadEpssData] returns only if the rows
    parsed after the first line are at least two, and whenever parsing
    yields fewer than two rows the final slicing panics.  (A feed made of
    the metadata line and the line of column names is not such an input:
    its second line does not parse as a row and the run ends in
    [log.Fatal].) *)
Theorem C10_short_feed_panics (fsys : string -> file) (path text : string) :
  fsys path = Contents text ->
  (forall l, LoadEpssData fsys path = Ret l ->
     exists rows, parse_feed text = Ret rows /\ (2 <= length rows)%nat) /\
  (forall rows, parse_feed text = Ret rows -> (length rows < 2)%nat ->
     LoadEpssData fsys path = Panic (SliceOutOfRange 2 (length rows))).
Proof.
  intros Hf. split.
  - intros l Hl. destruct (LoadEpssData_Ret _ _ _ Hl) as (text' & rows & Hf' & Hp & Hlen & _).
    rewrite Hf in Hf'. injection Hf' as <-. by exists rows.
  - intros rows Hp Hlen. unfold LoadEpssData. rewrite Hf, Hp. simpl.
    unfold slice_from. case_decide; [lia | done].
Qed.

End Feed.

(** ** The lookup map of the join *)

Section Lookup.
Context `{FL : FloatLib} `{CL : CsvLib}.

Lemma build_epssMap_snoc (l : list epss_data) (e : epss_data) :
  build_epssMap (l ++ [e])%list = <[e_cve e := e]> (build_epssMap l).
Proof. unfold build_epssMap. by rewrite foldl_app. Qed.

Lemma last_row_snoc (k : string) (l : list epss_data) (e : epss_data) :
  last_row k (l ++ [e])%list = if decide (e_cve e = k) then Some e else last_row k l.
Proof.
  unfold last_row. rewrite filter_app, filter_cons, filter_nil.
  case_decide.
  - by rewrite last_snoc.
  - by rewrite app_nil_r.
Qed.

(** The map holds, for every identifier, the last entry of the list with
    that identifier, and nothing for an identifier the list does not have. *)
Lemma build_epssMap_lookup (l : list epss_data) (k : string) :
  build_epssMap l !! k = last_row k l.
Proof.
  induction l as [|e l IH] using rev_ind.
  - done.
  - rewrite build_epssMap_snoc, last_row_snoc, lookup_insert.
    case_decide; done.
Qed.

Lemma last_row_drop (k : string) (n : nat) (rows : list epss_data)
    (e : epss_data) :
  last_row k (drop n rows) = Some e -> last_row k rows = Some e.
Proof.
  unfold last_row. intros H.
  rewrite <- (take_drop n rows) at 1. by rewrite filter_app, last_app, H.
Qed.

Lemma build_epssMap_key (l : list epss_data) (k : string) (e : epss_data) :
  build_epssMap l !! k = Some e -> e_cve e = k.
Proof.
  rewrite build_epssMap_lookup. unfold last_row. intros H.
  apply last_Some_elem_of in H. apply list_elem_of_filter in H. tauto.
Qed.

(** C8. For every feed that loads, the map built for the join has no
    duplicate keys; the value of every key is the last entry with that
    identifier in the loaded list, and that entry is also the last row with
    that identifier among all rows parsed after the first line. *)
Theorem C8_last_row_wins (fsys : string -> file) (path : string)
    (l : list epss_data) :
  LoadEpssData fsys path = Ret l ->
  exists (text : string) (rows : list epss_data),
    fsys path = Contents text /\ parse_feed text = Ret rows /\
    NoDup (map_to_list (build_epssMap l)).*1 /\
    (forall k : string, build_epssMap l !! k = last_row k l) /\
    (forall (k : string) (e : epss_data),
       build_epssMap l !! k = Some e -> last_row k rows = Some e /\ e_cve e = k).
Proof.
  intros Hl. destruct (LoadEpssData_Ret _ _ _ Hl) as (text & rows & Hf & Hp & _ & ->).
  exists text, rows. split; [done|]. split; [done|].
  split; [apply NoDup_fst_map_to_list|].
  split; [apply build_epssMap_lookup|].
  intros k e He. split.
  - rewrite build_epssMap_lookup in He. by eapply last_row_drop.
  - by eapply build_epssMap_key.
Qed.

End Lookup.

(** ** The listing *)

Lemma Atoi_digits (d : uint) :
  d <> Nil -> int_range (Z.of_uint d) ->
  strconv_Atoi (NilEmpty.string_of_uint d) = Some (Z.of_uint d).
Proof.
  intros Hd Hr. pose proof (NilEmpty.usu d) as Hu.
  unfold strconv_Atoi, parse_digits.
  destruct d; try done; cbn [NilEmpty.string_of_uint] in *;
    (rewrite Hu; cbn; unfold in_int_range; by rewrite decide_True).
Qed.

Lemma Atoi_Itoa (i : Z) :
  0 <= i -> int_range i -> strconv_Atoi (strconv_Itoa i) = Some i.
Proof.
  intros Hi Hr. destruct i as [|p|p]; [done| |lia].
  unfold strconv_Itoa. cbn [Z.to_int NilZero.string_of_int].
  pose proof (Unsigned.to_uint_nonnil p) as Hn.
  pose proof (Unsigned.of_to p) as Hp.
  assert (Hz : Z.of_uint (Pos.to_uint p) = Z.pos p).
  { unfold Z.of_uint. by rewrite Hp. }
  unfold NilZero.string_of_uint.
  destruct (Pos.to_uint p) eqn:Hd; [done|..]; rewrite <- Hd in *;
    (rewrite Atoi_digits, Hz; [done | done | by rewrite Hz]).
Qed.

Section Listing.
Context `{FL : FloatLib}.

Lemma query_field (h : heap) (blob : json) (q : string) (v : json) :
  strconv_Atoi q = None -> query h blob q = JqOk v -> field_at h blob q v.
Proof.
  unfold query, field_at. intros ->.
  destruct blob as [| | | | |m]; try discriminate.
  simpl. destruct (h !! m) as [mo|] eqn:Hm; simpl; [|discriminate].
  destruct (mo !! q) as [v'|] eqn:Hq; [|discriminate].
  intros [= <-]. by exists m, mo.
Qed.

Lemma query_index (h : heap) (blob : json) (q : string) (i : Z) (v : json) :
  strconv_Atoi q = Some i -> query h blob q = JqOk v ->
  exists l : list json, blob = JArr l /\ 0 <= i /\ l !! Z.to_nat i = Some v.
Proof.
  unfold query. intros ->.
  destruct blob as [| | | |l|]; try discriminate.
  repeat case_decide; try discriminate.
  destruct (l !! Z.to_nat i) as [v'|] eqn:Hl; [|discriminate].
  intros [= <-]. exists l. repeat split; [lia | done].
Qed.

Lemma rquery_cons (h : heap) (val : json) (q : string) (s : list string)
    (v : json) :
  rquery_from h val (q :: s) = JqOk v ->
  exists v1, query h val q = JqOk v1 /\ rquery_from h v1 s = JqOk v.
Proof.
  simpl. destruct (query h val q) as [v1| |]; try discriminate. by exists v1.
Qed.

Lemma rquery_nil (h : heap) (val v : json) :
  rquery_from h val [] = JqOk v -> v = val.
Proof. simpl. by destruct val; intros [= <-]. Qed.

Lemma jq_String_identifier (h : heap) (jq : loc) (i : Z) (P : string) (p : nat)
    (s : string) :
  0 <= i -> int_range i -> strconv_Atoi P = Some (Z.of_nat p) ->
  jq_String h jq ["results"; strconv_Itoa i; "vulnerability_ids"; P;
                  "vulnerability_id"] = JqOk s ->
  identifier_at h jq i p s.
Proof.
  intros Hi Hr HP. unfold jq_String, jq_bind.
  destruct (rquery_from _ _ _) as [v| |] eqn:Hq; try discriminate.
  destruct v; try discriminate. intros [= ->].
  apply rquery_cons in Hq as (v1 & H1 & Hq).
  apply rquery_cons in Hq as (v2 & H2 & Hq).
  apply rquery_cons in Hq as (v3 & H3 & Hq).
  apply rquery_cons in Hq as (v4 & H4 & Hq).
  apply rquery_cons in Hq as (v5 & H5 & Hq).
  apply rquery_nil in Hq as <-.
  apply query_field in H1; [|done].
  apply (query_index _ _ _ i) in H2 as (results & -> & _ & H2); [|by apply Atoi_Itoa].
  apply query_field in H3; [|done].
  apply (query_index _ _ _ (Z.of_nat p)) in H4 as (ids & -> & _ & H4); [|done].
  rewrite Nat2Z.id in H4.
  apply query_field in H5; [|done].
  exists v2, ids, v4. repeat split; try done. by exists results.
Qed.

Lemma jq_Object_record (h : heap) (jq : loc) (i : Z) (b : option loc) :
  0 <= i -> int_range i ->
  jq_Object h jq ["results"; strconv_Itoa i] = JqOk b ->
  exists m : loc, b = Some m /\ record_at h jq i (JObj m).
Proof.
  intros Hi Hr. unfold jq_Object, jq_bind.
  destruct (rquery_from _ _ _) as [v| |] eqn:Hq; try discriminate.
  destruct v as [| | | | |m]; try discriminate. intros [= <-].
  apply rquery_cons in Hq as (v1 & H1 & Hq).
  apply rquery_cons in Hq as (v2 & H2 & Hq).
  apply rquery_nil in Hq as <-.
  apply query_field in H1; [|done].
  apply (query_index _ _ _ i) in H2 as (results & -> & _ & H2); [|by apply Atoi_Itoa].
  exists m. split; [done|]. by exists results.
Qed.

End Listing.

Section Extraction.
Context `{FL : FloatLib}.

Lemma field_at_inj (h : heap) (v : json) (q : string) (v1 v2 : json) :
  field_at h v q v1 -> field_at h v q v2 -> v1 = v2.
Proof.
  intros (m & mo & -> & Hm & Hq) (m' & mo' & [= <-] & Hm' & Hq'). congruence.
Qed.

Lemma record_at_inj (h : heap) (jq : loc) (i : Z) (r1 r2 : json) :
  record_at h jq i r1 -> record_at h jq i r2 -> r1 = r2.
Proof.
  intros (l1 & H1 & _ & Hl1) (l2 & H2 & _ & Hl2).
  pose proof (field_at_inj _ _ _ _ _ H1 H2) as [= <-]. congruence.
Qed.

Lemma jq_Int_range (h : heap) (jq : loc) (s : list string) (n : Z) :
  jq_Int h jq s = JqOk n -> int_range n.
Proof.
  unfold jq_Int, jq_bind. destruct (rquery_from _ _ _) as [v| |]; try discriminate.
  destruct v as [| |x|x| |]; try discriminate.
  - intros [= <-]. apply int_of_float64_range.
  - destruct (strconv_ParseFloat x); [|discriminate].
    intros [= <-]. apply int_of_float64_range.
Qed.

Lemma jq_Int_id (h : heap) (jq : loc) (i n : Z) :
  0 <= i -> int_range i ->
  jq_Int h jq ["results"; strconv_Itoa i; "id"] = JqOk n ->
  exists r v : json, record_at h jq i r /\ field_at h r "id" v.
Proof.
  intros Hi Hr. unfold jq_Int, jq_bind.
  destruct (rquery_from _ _ _) as [v| |] eqn:Hq; try discriminate. intros _.
  apply rquery_cons in Hq as (v1 & H1 & Hq).
  apply rquery_cons in Hq as (v2 & H2 & Hq).
  apply rquery_cons in Hq as (v3 & H3 & Hq).
  apply query_field in H1; [|done].
  apply (query_index _ _ _ i) in H2 as (results & -> & _ & H2); [|by apply Atoi_Itoa].
  apply query_field in H3; [|done].
  exists v2, v3. split; [|done]. by exists results.
Qed.

(** What one iteration of the loop establishes. *)
Lemma extract_finding_Ret (h : heap) (jq : loc) (i : Z) (cur f : finding_data) :
  extract_finding h jq i cur = Ret f ->
  selector f = i /\
  (exists s0 : string,
     jq_String h jq ["results"; strconv_Itoa i; "vulnerability_ids"; "0";
                     "vulnerability_id"] = JqOk s0 /\
     if is_alias s0 then
       jq_String h jq ["results"; strconv_Itoa i; "vulnerability_ids"; "1";
                       "vulnerability_id"] = JqOk (cve f)
     else cve f = s0) /\
  jq_Int h jq ["results"; strconv_Itoa i; "id"] = JqOk (id f) /\
  jq_Object h jq ["results"; strconv_Itoa i] = JqOk (body f) /\
  epss_score f = epss_score cur /\
  epss_percentile f = epss_percentile cur.
Proof.
  unfold extract_finding.
  destruct (jq_String h jq [_; _; _; "0"; _]) as [s0| |] eqn:H0; try discriminate.
  simpl.
  destruct (is_alias s0) eqn:Ha.
  - destruct (jq_String h jq [_; _; _; "1"; _]) as [s1| |] eqn:H1; try discriminate.
    simpl.
    destruct (jq_Int _ _ _) as [n| |] eqn:Hn; try discriminate. simpl.
    destruct (jq_Object _ _ _) as [b| |] eqn:Hb; try discriminate. simpl.
    intros [= <-]. simpl. repeat split; try done.
    exists s0. by rewrite Ha.
  - simpl.
    destruct (jq_Int _ _ _) as [n| |] eqn:Hn; try discriminate. simpl.
    destruct (jq_Object _ _ _) as [b| |] eqn:Hb; try discriminate. simpl.
    intros [= <-]. simpl. repeat split; try done.
    exists s0. by rewrite Ha.
Qed.

Lemma findings_loop_Ret (h : heap) (jq : loc) (left : nat) (i : Z)
    (cur : finding_data) (acc l : list finding_data) :
  findings_loop h jq left i cur acc = Ret l ->
  exists fs : list finding_data,
    l = (acc ++ fs)%list /\ length fs = left /\
    forall (k : nat) (f : finding_data), fs !! k = Some f ->
      exists cur' : finding_data,
        extract_finding h jq (i + Z.of_nat k) cur' = Ret f /\
        epss_score cur' = epss_score cur /\
        epss_percentile cur' = epss_percentile cur.
Proof.
  revert i cur acc. induction left as [|left IH]; intros i cur acc; simpl.
  - intros [= <-]. exists []. rewrite app_nil_r. repeat split; try done.
  - destruct (extract_finding h jq i cur) as [c| |] eqn:He; try discriminate.
    simpl. intros Hl. destruct (IH _ _ _ Hl) as (fs & -> & Hlen & Hfs).
    exists (c :: fs). rewrite <- app_assoc. repeat split; [simpl; lia|].
    intros [|k] f Hk; simpl in Hk.
    + injection Hk as <-. exists cur. by rewrite Z.add_0_r.
    + destruct (Hfs k f Hk) as (cur' & Hx & Hs & Hp).
      apply extract_finding_Ret in He as (_ & _ & _ & _ & Hs' & Hp').
      exists cur'. replace (i + Z.of_nat (S k)) with (i + 1 + Z.of_nat k) by lia.
      repeat split; [done | congruence | congruence].
Qed.

Lemma CreateFindingsRaw_Ret (h : heap) (jq : loc) (l : list finding_data) :
  CreateFindingsRaw h jq = Ret l ->
  exists n : Z,
    jq_Int h jq ["count"] = JqOk n /\ int_range n /\
    length l = Z.to_nat (n - 1) /\
    forall (k : nat) (f : finding_data), l !! k = Some f ->
      exists cur' : finding_data,
        extract_finding h jq (1 + Z.of_nat k) cur' = Ret f /\
        epss_score cur' = float64_zero /\
        epss_percentile cur' = float64_zero.
Proof.
  unfold CreateFindingsRaw.
  destruct (jq_Int h jq ["count"]) as [n| |] eqn:Hn; try discriminate. simpl.
  intros Hl. apply findings_loop_Ret in Hl as (fs & -> & Hlen & Hfs).
  exists n. split; [done|]. split; [by eapply jq_Int_range|].
  split; [done|]. intros k f Hk. destruct (Hfs k f Hk) as (cur & Hx & Hs & Hp).
  by exists cur.
Qed.

(** Every summary returned is the reading of the record at its index. *)
Lemma CreateFindingsRaw_summary (h : heap) (jq : loc) (l : list finding_data)
    (n : Z) (k : nat) (f : finding_data) :
  CreateFindingsRaw h jq = Ret l -> jq_Int h jq ["count"] = JqOk n ->
  l !! k = Some f ->
  selector f = 1 + Z.of_nat k /\ 1 <= selector f < n /\
  epss_score f = float64_zero /\ epss_percentile f = float64_zero /\
  (exists (m : loc) (mo : gmap string json),
     body f = Some m /\ h !! m = Some mo /\ record_at h jq (selector f) (JObj m)) /\
  (exists s0 : string,
     identifier_at h jq (selector f) 0 s0 /\
     if is_alias s0 then identifier_at h jq (selector f) 1 (cve f)
     else cve f = s0).
Proof.
  intros Hl Hn Hk. destruct (CreateFindingsRaw_Ret _ _ _ Hl) as (n' & Hn' & Hr & Hlen & Hfs).
  rewrite Hn in Hn'. injection Hn' as <-.
  destruct (Hfs k f Hk) as (cur & Hx & Hs & Hp).
  apply lookup_lt_Some in Hk.
  assert (Hi : 0 <= 1 + Z.of_nat k) by lia.
  assert (Hir : int_range (1 + Z.of_nat k)) by (unfold int_range in *; lia).
  apply extract_finding_Ret in Hx as (Hsel & (s0 & H0 & H1) & Hid & Hb & Hs' & Hp').
  rewrite Hsel. repeat split; try lia; try congruence.
  - apply jq_Object_record in Hb as (m & Hm & Hrec); [|done..].
    apply jq_Int_id in Hid as (r & v & Hrec' & (m' & mo & -> & Hm' & _)); [|done..].
    pose proof (record_at_inj _ _ _ _ _ Hrec Hrec') as [= <-].
    by exists m, mo.
  - exists s0. split.
    + by apply (jq_String_identifier _ _ _ "0").
    + destruct (is_alias s0); [|done].
      by apply (jq_String_identifier _ _ _ "1").
Qed.

(** In a listing whose records are distinct objects, as [encoding/json]
    decodes them, every summary owns its body. *)
Lemma CreateFindingsRaw_owns (h : heap) (jq : loc) (l : list finding_data)
    (results : list json) (i : nat) (f : finding_data) :
  CreateFindingsRaw h jq = Ret l ->
  field_at h (JObj jq) "results" (JArr results) -> NoDup results ->
  l !! i = Some f -> owns_body l i f.
Proof.
  intros Hl Hres Hnd Hi j g Hj Hb.
  destruct (CreateFindingsRaw_Ret _ _ _ Hl) as (n & Hn & _).
  destruct (CreateFindingsRaw_summary _ _ _ _ _ _ Hl Hn Hi)
    as (Hsi & _ & _ & _ & (m & mo & Hbi & _ & (ri & Hri & _ & Hli)) & _).
  destruct (CreateFindingsRaw_summary _ _ _ _ _ _ Hl Hn Hj)
    as (Hsj & _ & _ & _ & (m' & mo' & Hbj & _ & (rj & Hrj & _ & Hlj)) & _).
  pose proof (field_at_inj _ _ _ _ _ Hres Hri) as [= <-].
  pose proof (field_at_inj _ _ _ _ _ Hres Hrj) as [= <-].
  assert (m' = m) as -> by congruence.
  pose proof (NoDup_lookup _ _ _ _ Hnd Hli Hlj). lia.
Qed.
(** C2, as the code has it.  When the extraction of a listing whose
    declared count is [n] returns, it returns [n - 1] summaries if [n >= 1]
    and none otherwise; the summary at position [k] is the reading of the
    record at index [k + 1], so that index 0 is skipped and the indices 1 to
    [n - 1] are covered in order; its identifier is the string found at
    position 0 or 1 of the identifier list of that record, whatever that
    string is. *)
Theorem C2_summaries_of_listing (h : heap) (jq : loc) (l : list finding_data) :
  CreateFindingsRaw h jq = Ret l ->
  exists n : Z,
    jq_Int h jq ["count"] = JqOk n /\
    length l = Z.to_nat (n - 1) /\
    forall (k : nat) (f : finding_data), l !! k = Some f ->
      selector f = 1 + Z.of_nat k /\ 1 <= selector f < n /\
      (exists (m : loc) (mo : gmap string json),
         body f = Some m /\ h !! m = Some mo /\
         record_at h jq (selector f) (JObj m)) /\
      (identifier_at h jq (selector f) 0 (cve f) \/
       identifier_at h jq (selector f) 1 (cve f)).
Proof.
  intros Hl. destruct (CreateFindingsRaw_Ret _ _ _ Hl) as (n & Hn & _ & Hlen & _).
  exists n. split; [done|]. split; [done|]. intros k f Hk.
  destruct (CreateFindingsRaw_summary _ _ _ _ _ _ Hl Hn Hk)
    as (Hsel & Hrange & _ & _ & Hbody & s0 & H0 & H1).
  repeat split; try done; try lia.
  destruct (is_alias s0); [by right | left; by subst s0].
Qed.

(** C4. In every summary returned, if the identifier at position 0 of the
    identifier list of the record matches the alias pattern of the source
    (it contains GHSA), the identifier of the summary is the one at
    position 1 of the same list; otherwise it is the one at position 0. *)
Theorem C4_alias_resolution (h : heap) (jq : loc) (l : list finding_data)
    (k : nat) (f : finding_data) :
  CreateFindingsRaw h jq = Ret l -> l !! k = Some f ->
  exists s0 : string,
    identifier_at h jq (selector f) 0 s0 /\
    (strings_Contains s0 "GHSA" = true ->
       identifier_at h jq (selector f) 1 (cve f)) /\
    (strings_Contains s0 "GHSA" = false -> cve f = s0).
Proof.
  intros Hl Hk. destruct (CreateFindingsRaw_Ret _ _ _ Hl) as (n & Hn & _).
  destruct (CreateFindingsRaw_summary _ _ _ _ _ _ Hl Hn Hk)
    as (_ & _ & _ & _ & _ & s0 & H0 & H1).
  exists s0. split; [done|]. unfold is_alias in H1.
  destruct (strings_Contains s0 "GHSA"); split; intros; done.
Qed.

End Extraction.

(** ** The join *)

Section Join.
Context `{FL : FloatLib}.
Implicit Types (M : gmap string epss_data) (h : heap) (f : finding_data).
Implicit Types (fs : list finding_data) (l : loc) (m : gmap string json).

Lemma write_scores_absorb (s1 p1 s2 p2 : float64) m :
  write_scores s2 p2 (write_scores s1 p1 m) = write_scores s2 p2 m.
Proof.
  unfold write_scores. apply map_eq. intros k.
  rewrite !lookup_insert. repeat case_decide; congruence.
Qed.

Lemma payload_after_snoc M fs f l m :
  payload_after M (fs ++ [f]) l m =
  match hit M l f with
  | Some e => write_scores (e_score e) (e_percentile e) (payload_after M fs l m)
  | None => payload_after M fs l m
  end.
Proof. unfold payload_after. by rewrite foldl_app. Qed.

(** Only the last write to a map counts. *)
Lemma payload_after_last M fs l m :
  payload_after M fs l m =
  match last (omap (hit M l) fs) with
  | Some e => write_scores (e_score e) (e_percentile e) m
  | None => m
  end.
Proof.
  induction fs as [|f fs IH] using rev_ind; [done|].
  rewrite payload_after_snoc, omap_app. simpl.
  destruct (hit M l f) as [e|]; simpl.
  - rewrite last_snoc, IH. destruct (last _); [|done].
    apply write_scores_absorb.
  - by rewrite app_nil_r.
Qed.

Lemma payload_after_idemp M fs l m :
  payload_after M fs l (payload_after M fs l m) = payload_after M fs l m.
Proof.
  rewrite !payload_after_last. destruct (last _); [|done].
  apply write_scores_absorb.
Qed.

(** The loop, when it returns: every finding is updated on its own, and the
    map at every address is the one the writes to this address leave. *)
Lemma enrich_loop_Ret M fs h fs1 (h1 : heap) :
  enrich_loop M fs h = Ret (fs1, h1) ->
  fs1 = enrich_record M <$> fs /\
  Forall (writable M h) fs /\
  forall l, h1 !! l = payload_after M fs l <$> h !! l.
Proof.
  revert h fs1 h1. induction fs as [|f fs IH]; intros h fs1 h1; simpl.
  - intros [= <- <-]. repeat split; [constructor|].
    intros l. by destruct (h !! l).
  - unfold enrich_record at 1, writable at 1, hit.
    destruct (M !! cve f) as [e|] eqn:He.
    + destruct (body f) as [lf|] eqn:Hb; [|discriminate]. simpl.
      destruct (h !! lf) as [mf|] eqn:Hm; [|discriminate].
      destruct (enrich_loop M fs _) as [[fs' h']| |] eqn:Hr; try discriminate.
      simpl. intros [= <- <-].
      destruct (IH _ _ _ Hr) as (-> & Hw & Hh). split; [|split].
      * unfold with_scores. by rewrite Hb.
      * constructor.
        -- intros _. rewrite Hb. simpl. by rewrite Hm.
        -- eapply Forall_impl; [exact Hw|]. intros g Hg Hs.
           destruct (Hg Hs) as [mg Hmg]. unfold map_at in *.
           destruct (body g) as [lg|]; simpl in *; [|done].
           rewrite lookup_insert in Hmg. case_decide; [subst; by rewrite Hm|by eexists].
      * intros l. rewrite Hh, lookup_insert. unfold payload_after at 2. simpl.
        unfold hit at 2. rewrite Hb, He. case_decide as Hl.
        -- subst lf. rewrite decide_True by done. by rewrite Hm.
        -- rewrite decide_False by congruence. done.
    + destruct (enrich_loop M fs h) as [[fs' h']| |] eqn:Hr; try discriminate.
      simpl. intros [= <- <-].
      destruct (IH _ _ _ Hr) as (-> & Hw & Hh). split; [done|split].
      * constructor; [|done]. rewrite He. by intros [? [=]].
      * intros l. rewrite Hh. unfold payload_after at 2. simpl.
        unfold hit at 2. rewrite He. by case_decide.
Qed.

(** The loop returns as soon as every write has a map to go to. *)
Lemma enrich_loop_writable M fs h :
  Forall (writable M h) fs -> exists r, enrich_loop M fs h = Ret r.
Proof.
  revert h. induction fs as [|f fs IH]; intros h Hw; simpl; [by eexists|].
  apply Forall_cons in Hw as [Hf Hw]. unfold writable in Hf.
  destruct (M !! cve f) as [e|] eqn:He.
  - destruct Hf as [mf Hmf]; [done|]. unfold map_at in Hmf.
    destruct (body f) as [lf|] eqn:Hb; [|done]. simpl in *. rewrite Hmf.
    destruct (IH (<[lf := write_scores (e_score e) (e_percentile e) mf]> h))
      as [r ->]; [|by eexists].
    eapply Forall_impl; [exact Hw|]. intros g Hg Hs.
    destruct (Hg Hs) as [mg Hmg]. unfold map_at in *.
    destruct (body g) as [lg|]; simpl in *; [|done].
    rewrite lookup_insert. case_decide; by eexists.
  - edestruct (IH h Hw) as [r ->]. by eexists.
Qed.

Lemma enrich_record_idemp M f :
  enrich_record M (enrich_record M f) = enrich_record M f.
Proof.
  unfold enrich_record. destruct (M !! cve f) as [e|] eqn:He; simpl.
  - by rewrite He.
  - by rewrite He.
Qed.

Lemma hit_enrich_record M l f : hit M l (enrich_record M f) = hit M l f.
Proof.
  unfold hit, enrich_record. destruct (M !! cve f) as [e|] eqn:He.
  - simpl. by rewrite He.
  - by rewrite He.
Qed.

Lemma payload_after_enriched M fs l m :
  payload_after M (enrich_record M <$> fs) l m = payload_after M fs l m.
Proof.
  revert m. induction fs as [|f fs IH]; intros m; [done|].
  unfold payload_after in *. simpl. by rewrite hit_enrich_record, IH.
Qed.

(** Running the loop on its own result changes nothing. *)
Lemma enrich_loop_idemp M fs h fs1 (h1 : heap) :
  enrich_loop M fs h = Ret (fs1, h1) -> enrich_loop M fs1 h1 = Ret (fs1, h1).
Proof.
  intros Hr. destruct (enrich_loop_Ret _ _ _ _ _ Hr) as (-> & Hw & Hh).
  destruct (enrich_loop_writable M (enrich_record M <$> fs) h1) as [[fs2 h2] Hr2].
  - apply Forall_fmap. eapply Forall_impl; [exact Hw|]. intros f Hf Hs. simpl.
    assert (Hc : cve (enrich_record M f) = cve f)
      by (unfold enrich_record; by destruct (M !! cve f)).
    assert (Hbd : body (enrich_record M f) = body f)
      by (unfold enrich_record; by destruct (M !! cve f)).
    rewrite Hc in Hs. rewrite Hbd.
    destruct (Hf Hs) as [mf Hmf]. unfold map_at in *.
    destruct (body f) as [lf|]; simpl in *; [|done].
    rewrite Hh, Hmf. by eexists.
  - rewrite Hr2. destruct (enrich_loop_Ret _ _ _ _ _ Hr2) as (-> & _ & Hh2).
    f_equal. f_equal.
    + rewrite <- list_fmap_compose. apply list_fmap_ext. intros _ f _. simpl.
      apply enrich_record_idemp.
    + apply map_eq. intros l. rewrite Hh2, Hh.
      destruct (h !! l); simpl; [|done].
      by rewrite payload_after_enriched, payload_after_idemp.
Qed.


Lemma omap_hit_nil M l fs :
  (forall j g, fs !! j = Some g -> body g <> Some l) ->
  omap (hit M l) fs = [].
Proof.
  induction fs as [|g fs IH]; intros Hn; [done|]. simpl.
  unfold hit at 1. rewrite decide_False by (by apply (Hn 0%nat)).
  apply IH. intros j g' Hj. by apply (Hn (S j)).
Qed.

(** The writes to a body that one finding owns are those of this finding. *)
Lemma omap_hit_owner M l fs i f :
  fs !! i = Some f -> body f = Some l -> owns_body fs i f ->
  omap (hit M l) fs = option_list (M !! cve f).
Proof.
  intros Hi Hb Ho. rewrite <- (take_drop_middle fs i f Hi), omap_app. simpl.
  rewrite !omap_hit_nil.
  - unfold hit. rewrite decide_True by done. by destruct (M !! cve f).
  - intros j g Hj Hg. rewrite lookup_drop in Hj.
    specialize (Ho _ _ Hj). rewrite Hg, Hb in Ho. specialize (Ho eq_refl). lia.
  - intros j g Hj Hg. apply lookup_take_Some in Hj as [Hj Hlt].
    specialize (Ho _ _ Hj). rewrite Hg, Hb in Ho. specialize (Ho eq_refl). lia.
Qed.

(** On the findings that [CreateFindingsRaw] extracts from a listing, the
    join returns: every body is a map of the listing. *)
Lemma EnrichFindingData_extracted (epssList : list epss_data) (h : heap)
    (jq : loc) (fs : list finding_data) :
  CreateFindingsRaw h jq = Ret fs ->
  exists r, EnrichFindingData epssList fs h = Ret r.
Proof.
  intros Hc. apply enrich_loop_writable. apply Forall_lookup. intros i f Hi _.
  destruct (CreateFindingsRaw_Ret _ _ _ Hc) as (n & Hn & _).
  destruct (CreateFindingsRaw_summary _ _ _ _ _ _ Hc Hn Hi)
    as (_ & _ & _ & _ & (m & mo & Hb & Hm & _) & _).
  unfold map_at. rewrite Hb. simpl. by exists mo.
Qed.
(** C5. For every finding whose identifier is a key of the score map, the
    join sets its score and percentile from the entry of that key, which
    carries the same identifier, and writes two fields of its body,
    [epss_score] and [epss_percentile]: when no other finding shares this
    body, it is afterwards the body as it was with these two fields set to
    the five-decimal renderings of the score and the percentile of the
    entry. *)
Theorem C5_matched_finding_enriched (epssList : list epss_data) fs h
    (fs1 : list finding_data) (h1 : heap) (i : nat) f (e : epss_data) :
  EnrichFindingData epssList fs h = Ret (fs1, h1) ->
  fs !! i = Some f ->
  build_epssMap epssList !! cve f = Some e ->
  e_cve e = cve f /\
  fs1 !! i = Some (with_scores f e) /\
  exists l m,
    body f = Some l /\ h !! l = Some m /\
    (owns_body fs i f ->
     h1 !! l =
       Some (<["epss_percentile" := JStr (fmt_Sprintf_5f (e_percentile e))]>
               (<["epss_score" := JStr (fmt_Sprintf_5f (e_score e))]> m))).
Proof.
  unfold EnrichFindingData. intros Hr Hi He.
  destruct (enrich_loop_Ret _ _ _ _ _ Hr) as (-> & Hw & Hh).
  split; [by eapply build_epssMap_key|]. split.
  - rewrite list_lookup_fmap, Hi. simpl. unfold enrich_record. by rewrite He.
  - rewrite Forall_lookup in Hw. destruct (Hw _ _ Hi) as [m Hm]; [by eexists|].
    unfold map_at in Hm. destruct (body f) as [l|] eqn:Hb; [|done]. simpl in Hm.
    exists l, m. split; [done|]. split; [done|]. intros Ho.
    rewrite Hh, Hm. simpl. rewrite payload_after_last.
    by rewrite (omap_hit_owner _ _ _ i f), He.
Qed.

(** C6. The join returns as many findings as it was given.  A finding
    whose identifier is not a key of the score map is returned unchanged at
    its position, scores included, and they are the zero value for the
    findings that [CreateFindingsRaw] produces; its body is unchanged as
    well, provided no other finding shares it. *)
Theorem C6_unmatched_finding_unchanged (epssList : list epss_data) fs h
    (fs1 : list finding_data) (h1 : heap) :
  EnrichFindingData epssList fs h = Ret (fs1, h1) ->
  length fs1 = length fs /\
  forall (i : nat) f,
    fs !! i = Some f -> build_epssMap epssList !! cve f = None ->
    fs1 !! i = Some f /\
    (owns_body fs i f -> map_at h1 (body f) = map_at h (body f)) /\
    (forall (h0 : heap) (jq : loc), CreateFindingsRaw h0 jq = Ret fs ->
       epss_score f = float64_zero /\ epss_percentile f = float64_zero).
Proof.
  unfold EnrichFindingData. intros Hr.
  destruct (enrich_loop_Ret _ _ _ _ _ Hr) as (-> & Hw & Hh).
  split; [by rewrite length_fmap|]. intros i f Hi He. split; [|split].
  - rewrite list_lookup_fmap, Hi. simpl. unfold enrich_record. by rewrite He.
  - intros Ho. unfold map_at. destruct (body f) as [l|] eqn:Hb; [|done]. simpl.
    rewrite Hh. destruct (h !! l) as [m|]; [|done]. simpl.
    rewrite payload_after_last.
    by rewrite (omap_hit_owner _ _ _ i f), He.
  - intros h0 jq Hc. destruct (CreateFindingsRaw_Ret _ _ _ Hc) as (n & Hn & _).
    destruct (CreateFindingsRaw_summary _ _ _ _ _ _ Hc Hn Hi) as (_ & _ & Hs & Hp & _).
    done.
Qed.

(** C9. Applying the join to its own result gives that result again: one
    application and two applications end alike, with the same findings and
    the same heap, hence with the same [epss_score] and [epss_percentile]
    entries in every body. *)
Theorem C9_join_idempotent (epssList : list epss_data) fs h :
  (r <-! EnrichFindingData epssList fs h;
   EnrichFindingData epssList r.1 r.2) = EnrichFindingData epssList fs h /\
  forall (fs1 fs2 : list finding_data) (h1 h2 : heap),
    EnrichFindingData epssList fs h = Ret (fs1, h1) ->
    EnrichFindingData epssList fs1 h1 = Ret (fs2, h2) ->
    fs2 = fs1 /\
    forall (b : option loc),
      map_at h2 b ≫= (.!! "epss_score") = map_at h1 b ≫= (.!! "epss_score") /\
      map_at h2 b ≫= (.!! "epss_percentile") =
        map_at h1 b ≫= (.!! "epss_percentile").
Proof.
  unfold EnrichFindingData. split.
  - destruct (enrich_loop _ fs h) as [[fs1 h1]| |] eqn:Hr; [|done..]. simpl.
    by apply (enrich_loop_idemp _ fs h).
  - intros fs1 fs2 h1 h2 Hr Hr2.
    rewrite (enrich_loop_idemp _ _ _ _ _ Hr) in Hr2. by injection Hr2 as <- <-.
Qed.

End Join.

(** ** The dispatcher *)

Section Dispatch.
Context `{FL : FloatLib} `{Net : !NetLib}.

(** C7, as the code has it.  Provided every finding's call is built and
    answered (a failure to encode, to build the request or to reach the
    server is fatal to the run), the dispatcher issues exactly one update
    call per finding, in input order, prints one report per finding from
    the response received, whatever its status, and returns: no status ever
    keeps the findings that follow from being dispatched. *)
Theorem C7_one_call_per_finding (fl : flags) (h : heap)
    (fs : list finding_data) (w : world) :
  length (replies fl h fs w) = length fs ->
  exists (tr : list (event encoded)) (w' : world),
    PatchFindingData fs fl h w = (tr, w', Ret tt) /\
    Forall2 (fun f req => update_call fl h f = Some req) fs (requests_of tr) /\
    prints_of tr = zip_with report fs (replies fl h fs w).
Proof.
  revert w. induction fs as [|f fs IH]; intros w; simpl.
  - intros _. exists [], w. repeat split. constructor.
  - unfold update_call at 1 3.
    destruct (json_Marshal h (map_at h (body f))) as [jsonData|] eqn:Hjs;
      simpl; [|done].
    destruct (update_request fl f jsonData) as [req|] eqn:Hreq; simpl; [|done].
    destruct (client_Do req w) as [[resp|] w1]; simpl; [|done].
    intros [= Hlen]. destruct (IH w1 Hlen) as (tr & w' & -> & Hreqs & Hprints).
    exists (EvRequest req :: EvPrint (report f resp) :: tr), w'.
    split; [done|]. split.
    + simpl. constructor; [|done]. unfold update_call. by rewrite Hjs.
    + simpl. by rewrite Hprints.
Qed.
End Dispatch.

(** ** The feed: when it loads and how it fails *)

Lemma index_NL_app (first rest : string) :
  String.index 0 NL first = None ->
  String.index 0 NL (first +:+ NL +:+ rest) = Some (String.length first).
Proof.
  induction first as [|b t IH]; intros Hf.
  - change (EmptyString +:+ NL +:+ rest) with (String "010" rest).
    by rewrite index_NL_cons.
  - rewrite index_NL_cons in Hf.
    change (String b t +:+ NL +:+ rest) with (String b (t +:+ NL +:+ rest)).
    rewrite index_NL_cons.
    destruct (Ascii.eqb "010" b); [discriminate|].
    destruct (String.index 0 NL t); [discriminate|]. by rewrite IH.
Qed.

Lemma string_from_app (first rest : string) :
  string_from (String.length first) (first +:+ rest) = rest.
Proof. induction first as [|b t IH]; [by destruct rest | exact IH]. Qed.

Lemma string_from_S (n : nat) (b : ascii) (s : string) :
  string_from (S n) (String b s) = string_from n s.
Proof. reflexivity. Qed.

Lemma index_NL_None_iff (text : string) :
  String.index 0 NL text = None <->
  ~ In ("010"%char) (list_ascii_of_string text).
Proof.
  induction text as [|b t IH].
  - split; [intros _ []|reflexivity].
  - rewrite index_NL_cons. cbn [list_ascii_of_string In].
    destruct (Ascii.eqb_spec "010" b) as [<-|Hb].
    { split; [discriminate|]. intros Hn. destruct Hn. by left. }
    destruct (String.index 0 NL t) eqn:Hi; cbn.
    + split; [discriminate|]. intros Hn. exfalso.
      assert (Ht : ~ In "010"%char (list_ascii_of_string t)) by tauto.
      apply IH in Ht. discriminate Ht.
    + split; [|done]. intros _ [Hh|Ht]; [congruence|]. by apply IH.
Qed.

Section FeedMore.
Context `{FL : FloatLib} `{CL : CsvLib}.

(** The first line ends at the first line break. *)
Lemma skip_first_line_split (first rest : string) :
  strings_Contains first NL = false ->
  skip_first_line (first +:+ NL +:+ rest) = Ret rest.
Proof.
  unfold strings_Contains, strings_Index, skip_first_line, strings_Index.
  destruct (String.index 0 NL first) eqn:Hf; [discriminate|]. intros _.
  rewrite index_NL_app by done. f_equal.
  replace (String.length first + 1)%nat with (S (String.length first)) by lia.
  clear Hf. induction first as [|b t IH]; [done|exact IH].
Qed.

(** Rows read so far are kept while the loop goes on. *)
Lemma read_rows_app (good rest : list (list string)) (fin : option csv_error)
    (rows acc : list epss_data) :
  Forall2 parsed_row good rows ->
  read_rows (good ++ rest) fin acc = read_rows rest fin (acc ++ rows).
Proof.
  intros HF. revert acc. induction HF as [|record e good rows He _ IH]; intros acc.
  - simpl. by rewrite app_nil_r.
  - destruct He as (f1 & f2 & H0 & H1 & Hx & H2 & Hy). simpl.
    unfold index_or_panic. rewrite H0, H1. simpl. rewrite Hx. simpl.
    rewrite H2. simpl. rewrite Hy. simpl. rewrite IH.
    destruct e; simpl. by rewrite <- app_assoc.
Qed.

(** X1. A feed made of a first line, a line break and a remainder whose CSV
    records all read as rows, at least two of them, loads: the result is
    the rows without the first two. *)
Theorem feed_with_two_rows_loads (fsys : string -> file) (path : string)
    (first rest : string) (rows : list epss_data) :
  fsys path = Contents (first +:+ NL +:+ rest) ->
  strings_Contains first NL = false ->
  final (csv_NewReader rest) = None ->
  Forall2 parsed_row (pending (csv_NewReader rest)) rows ->
  (2 <= length rows)%nat ->
  LoadEpssData fsys path = Ret (drop 2 rows).
Proof.
  intros Hf Hfirst Hfin Hrows Hlen. unfold LoadEpssData, parse_feed.
  rewrite Hf, skip_first_line_split by done. simpl.
  rewrite Hfin, (read_rows_complete _ rows []) by done. simpl.
  unfold slice_from. by rewrite decide_True.
Qed.

(** X2. A feed text without a line break, the empty text included, ends
    the run in [log.Fatal] before any CSV is read. *)
Theorem feed_without_line_break_is_fatal (fsys : string -> file)
    (path text : string) :
  fsys path = Contents text ->
  ~ In ("010"%char) (list_ascii_of_string text) ->
  LoadEpssData fsys path = Fatal FatalNoNewline.
Proof.
  intros Hf Hn. apply index_NL_None_iff in Hn.
  unfold LoadEpssData, parse_feed, skip_first_line, strings_Index.
  by rewrite Hf, Hn.
Qed.

(** X3. The first field that does not read as a number is fatal to the
    whole load, whatever the rows before and after it: no row is skipped
    and nothing is returned. *)
Theorem unreadable_number_is_fatal (fsys : string -> file) (path : string)
    (first rest : string) (good after : list (list string))
    (record : list string) (rows : list epss_data) (c f1 : string) :
  fsys path = Contents (first +:+ NL +:+ rest) ->
  strings_Contains first NL = false ->
  pending (csv_NewReader rest) = (good ++ record :: after)%list ->
  Forall2 parsed_row good rows ->
  record !! 0%nat = Some c -> record !! 1%nat = Some f1 ->
  (strconv_ParseFloat f1 = None ->
   LoadEpssData fsys path = Fatal (FatalScore f1)) /\
  (forall (x : float64) (f2 : string),
     strconv_ParseFloat f1 = Some x -> record !! 2%nat = Some f2 ->
     strconv_ParseFloat f2 = None ->
     LoadEpssData fsys path = Fatal (FatalPercentile f2)).
Proof.
  intros Hf Hfirst Hp Hgood H0 H1. unfold LoadEpssData, parse_feed.
  rewrite Hf, skip_first_line_split by done. simpl.
  rewrite Hp, (read_rows_app _ _ _ rows) by done. simpl.
  unfold index_or_panic. rewrite H0, H1. simpl. split.
  - intros ->. done.
  - intros x f2 -> H2 Hy. simpl. rewrite H2. simpl. by rewrite Hy.
Qed.


(** X5. When the CSV reader reports an error after records that all read
    as rows, the run ends in [log.Fatal] with that error and the rows read
    are lost. *)
Theorem csv_error_is_fatal (fsys : string -> file) (path : string)
    (first rest : string) (rows : list epss_data) (e : csv_error) :
  fsys path = Contents (first +:+ NL +:+ rest) ->
  strings_Contains first NL = false ->
  Forall2 parsed_row (pending (csv_NewReader rest)) rows ->
  final (csv_NewReader rest) = Some e ->
  LoadEpssData fsys path = Fatal (FatalCsv e).
Proof.
  intros Hf Hfirst Hrows Hfin. unfold LoadEpssData, parse_feed.
  rewrite Hf, skip_first_line_split by done. simpl.
  rewrite <- (app_nil_r (pending _)), (read_rows_app _ _ _ rows) by done.
  simpl. by rewrite Hfin.
Qed.

End FeedMore.

(** ** The listing: when it is extracted and how it fails *)

Section ListingMore.
Context `{FL : FloatLib}.

Lemma query_field_ok (h : heap) (blob : json) (q : string) (v : json) :
  strconv_Atoi q = None -> field_at h blob q v -> query h blob q = JqOk v.
Proof.
  intros Hq (m & mo & -> & Hm & Hv). unfold query. rewrite Hq. simpl.
  by rewrite Hm; simpl; rewrite Hv.
Qed.

Lemma query_index_ok (h : heap) (l : list json) (q : string) (i : Z) (v : json) :
  strconv_Atoi q = Some i -> 0 <= i -> l !! Z.to_nat i = Some v ->
  query h (JArr l) q = JqOk v.
Proof.
  intros Hq Hi Hv. unfold query. rewrite Hq.
  apply lookup_lt_Some in Hv as Hlt.
  rewrite decide_True by lia. rewrite decide_False by lia. by rewrite Hv.
Qed.

Lemma rquery_identifier (h : heap) (jq : loc) (i : Z) (P : string) (p : nat)
    (s : string) :
  0 <= i -> int_range i -> strconv_Atoi P = Some (Z.of_nat p) ->
  identifier_at h jq i p s ->
  jq_String h jq ["results"; strconv_Itoa i; "vulnerability_ids"; P;
                  "vulnerability_id"] = JqOk s.
Proof.
  intros Hi Hr HP (r & ids & o & (results & Hres & _ & Hri) & Hids & Ho & Hs).
  unfold jq_String. simpl.
  rewrite (query_field_ok _ _ "results" _ eq_refl Hres).
  rewrite (query_index_ok _ _ _ i r) by (by try apply Atoi_Itoa).
  rewrite (query_field_ok _ _ "vulnerability_ids" _ eq_refl Hids).
  rewrite (query_index_ok _ _ _ (Z.of_nat p) o); [|done|lia|by rewrite Nat2Z.id].
  by rewrite (query_field_ok _ _ "vulnerability_id" _ eq_refl Hs).
Qed.

(** A record that reads as [f] is extracted as [f]. *)
Lemma extract_finding_reads (h : heap) (jq : loc) (i : Z)
    (cur f : finding_data) :
  0 <= i -> int_range i ->
  epss_score cur = float64_zero -> epss_percentile cur = float64_zero ->
  reads_record h jq i f -> extract_finding h jq i cur = Ret f.
Proof.
  intros Hi Hr Hs Hp (m & s0 & x & Hrec & H0 & H1 & Hid & Hf).
  unfold extract_finding.
  rewrite (rquery_identifier _ _ _ "0" 0 s0) by done. simpl.
  assert (Hc : (if is_alias s0
                then jq_or_fatal (FatalVulnId1 i)
                       (jq_String h jq ["results"; strconv_Itoa i;
                          "vulnerability_ids"; "1"; "vulnerability_id"])
                else Ret s0) = Ret (cve f)).
  { destruct (is_alias s0).
    - by rewrite (rquery_identifier _ _ _ "1" 1 (cve f)).
    - by subst s0. }
  rewrite Hc. simpl.
  destruct Hrec as (results & Hres & _ & Hri).
  assert (Hq : forall rest v, rquery_from h (JObj m) rest = v ->
            rquery_from h (JObj jq) ("results" :: strconv_Itoa i :: rest) = v).
  { intros rest v <-. simpl.
    rewrite (query_field_ok _ _ "results" _ eq_refl Hres).
    by rewrite (query_index_ok _ _ _ i (JObj m)) by (by try apply Atoi_Itoa). }
  unfold jq_Int, jq_Object.
  rewrite (Hq ["id"] (JqOk (JNum x))).
  2:{ simpl. by rewrite (query_field_ok _ _ "id" _ eq_refl Hid). }
  rewrite (Hq [] (JqOk (JObj m))) by done. simpl.
  rewrite Hf. simpl. by rewrite Hs, Hp.
Qed.

Lemma findings_loop_reads (h : heap) (jq : loc) (i : Z) (cur : finding_data)
    (acc fs : list finding_data) :
  0 <= i -> i + Z.of_nat (length fs) <= 2 ^ 63 ->
  epss_score cur = float64_zero -> epss_percentile cur = float64_zero ->
  (forall (k : nat) (f : finding_data),
     fs !! k = Some f -> reads_record h jq (i + Z.of_nat k) f) ->
  findings_loop h jq (length fs) i cur acc = Ret (acc ++ fs)%list.
Proof.
  revert i cur acc. induction fs as [|f fs IH]; intros i cur acc Hi Hb Hs Hp Hfs.
  - simpl. by rewrite app_nil_r.
  - simpl in *. pose proof (Hfs 0%nat f eq_refl) as Hf. rewrite Z.add_0_r in Hf.
    rewrite (extract_finding_reads _ _ _ _ f) by
      (try done; unfold int_range; lia).
    simpl. rewrite IH.
    + by rewrite <- app_assoc.
    + lia.
    + lia.
    + destruct Hf as (m & s0 & x & _ & _ & _ & _ & ->). done.
    + destruct Hf as (m & s0 & x & _ & _ & _ & _ & ->). done.
    + intros k g Hk. specialize (Hfs (S k) g Hk).
      by replace (i + 1 + Z.of_nat k) with (i + Z.of_nat (S k)) by lia.
Qed.

(** X6. A listing that declares [n] findings and whose records 1 to
    [n - 1] read as the findings [fs] is extracted as [fs]. *)
Theorem readable_listing_is_extracted (h : heap) (jq : loc) (n : Z)
    (fs : list finding_data) :
  jq_Int h jq ["count"] = JqOk n ->
  length fs = Z.to_nat (n - 1) ->
  (forall (k : nat) (f : finding_data),
     fs !! k = Some f -> reads_record h jq (1 + Z.of_nat k) f) ->
  CreateFindingsRaw h jq = Ret fs.
Proof.
  intros Hn Hlen Hfs. unfold CreateFindingsRaw. rewrite Hn. simpl.
  rewrite <- Hlen. apply jq_Int_range in Hn. unfold int_range in Hn.
  by rewrite (findings_loop_reads _ _ _ _ [] fs) by (try done; lia).
Qed.

(** X7. A listing that declares at most one finding gives no summary, and
    its records are not read: they may be missing. *)
Theorem listing_of_at_most_one_is_empty (h : heap) (jq : loc) (n : Z) :
  jq_Int h jq ["count"] = JqOk n -> n <= 1 -> CreateFindingsRaw h jq = Ret [].
Proof.
  intros Hn Hle. unfold CreateFindingsRaw. rewrite Hn. simpl.
  by replace (Z.to_nat (n - 1)) with 0%nat by lia.
Qed.


Lemma safe_step_name (q : string) : strconv_Atoi q = None -> safe_step q.
Proof. intros Hq idx. by rewrite Hq. Qed.

Lemma safe_step_Itoa (i : Z) : 0 <= i -> int_range i -> safe_step (strconv_Itoa i).
Proof. intros Hi Hr idx. rewrite Atoi_Itoa by done. by intros [= <-]. Qed.

Lemma query_no_panic (h : heap) (blob : json) (q : string) (p : panic) :
  safe_step q -> query h blob q <> JqPanic p.
Proof.
  intros Hq. unfold query. destruct (strconv_Atoi q) as [idx|] eqn:Hi.
  - specialize (Hq idx Hi). destruct blob; try done.
    repeat case_decide; try done; try lia. by destruct (_ !! _).
  - destruct blob; try done. by destruct (_ ≫= _).
Qed.

Lemma rquery_no_panic (h : heap) (val : json) (s : list string) (p : panic) :
  Forall safe_step s -> rquery_from h val s <> JqPanic p.
Proof.
  intros Hs. revert val. induction Hs as [|q s Hq _ IH]; intros val; simpl.
  - by destruct val.
  - destruct (query h val q) as [v| |p'] eqn:Hv; try done.
    by apply query_no_panic in Hv.
Qed.

Lemma record_path_safe (i : Z) (rest : list string) :
  0 <= i -> int_range i -> Forall (fun q => strconv_Atoi q = None \/ q = "0" \/ q = "1") rest ->
  Forall safe_step ("results" :: strconv_Itoa i :: rest).
Proof.
  intros Hi Hr Hrest. constructor; [by apply safe_step_name|].
  constructor; [by apply safe_step_Itoa|].
  eapply Forall_impl; [exact Hrest|]. intros q [Hq|[->| ->]].
  - by apply safe_step_name.
  - intros idx Hx. change (Some 0 = Some idx) in Hx. injection Hx as <-. lia.
  - intros idx Hx. change (Some 1 = Some idx) in Hx. injection Hx as <-. lia.
Qed.

Lemma jq_bind_no_panic {A B : Type} (r : jq_result A) (k : A -> jq_result B) :
  (forall p, r <> JqPanic p) -> (forall a p, k a <> JqPanic p) ->
  forall p, jq_bind r k <> JqPanic p.
Proof.
  intros Hr Hk p. destruct r as [a| |p']; simpl; [apply Hk | done |].
  by destruct (Hr p').
Qed.

Lemma jq_or_fatal_cases {A : Type} (e : fatal) (r : jq_result A) :
  (forall p, r <> JqPanic p) ->
  (exists a, jq_or_fatal e r = Ret a) \/ jq_or_fatal e r = Fatal e.
Proof.
  intros Hr. destruct r as [a| |p]; [left; by exists a | by right |].
  by destruct (Hr p).
Qed.

Lemma jq_String_no_panic (h : heap) (jq : loc) (s : list string) (p : panic) :
  Forall safe_step s -> jq_String h jq s <> JqPanic p.
Proof.
  intros Hs. apply jq_bind_no_panic.
  - intros p'. by apply rquery_no_panic.
  - by intros [] ?.
Qed.

Lemma jq_Int_no_panic (h : heap) (jq : loc) (s : list string) (p : panic) :
  Forall safe_step s -> jq_Int h jq s <> JqPanic p.
Proof.
  intros Hs. apply jq_bind_no_panic.
  - intros p'. by apply rquery_no_panic.
  - intros [] ?; try done. by destruct (strconv_ParseFloat _).
Qed.

Lemma jq_Object_no_panic (h : heap) (jq : loc) (s : list string) (p : panic) :
  Forall safe_step s -> jq_Object h jq s <> JqPanic p.
Proof.
  intros Hs. apply jq_bind_no_panic.
  - intros p'. by apply rquery_no_panic.
  - by intros [] ?.
Qed.

Ltac path_steps :=
  repeat (constructor;
          [first [left; reflexivity | right; left; reflexivity
                 | right; right; reflexivity]|]);
  try constructor.

(** One iteration returns or ends in [log.Fatal] at one of its four
    lookups. *)
Lemma extract_finding_outcome (h : heap) (jq : loc) (i : Z) (cur : finding_data) :
  0 <= i -> int_range i ->
  (exists f, extract_finding h jq i cur = Ret f) \/
  (exists e, extract_finding h jq i cur = Fatal e /\
             e ∈ [FatalVulnId0 i; FatalVulnId1 i; FatalId i; FatalBody i]).
Proof.
  intros Hi Hr. unfold extract_finding.
  assert (Hsafe : forall rest,
            Forall (fun q => strconv_Atoi q = None \/ q = "0" \/ q = "1") rest ->
            Forall safe_step ("results" :: strconv_Itoa i :: rest))
    by (intros rest; by apply record_path_safe).
  destruct (jq_or_fatal_cases (FatalVulnId0 i)
              (jq_String h jq ["results"; strconv_Itoa i; "vulnerability_ids";
                               "0"; "vulnerability_id"])) as [[s0 ->]| ->].
  { intros p. apply jq_String_no_panic, Hsafe. path_steps. }
  2:{ right. eexists. split; [done|]. set_solver. }
  simpl.
  assert (H1 : (exists c, (if is_alias s0
                  then jq_or_fatal (FatalVulnId1 i)
                         (jq_String h jq ["results"; strconv_Itoa i;
                            "vulnerability_ids"; "1"; "vulnerability_id"])
                  else Ret s0) = Ret c) \/
               (if is_alias s0
                then jq_or_fatal (FatalVulnId1 i)
                       (jq_String h jq ["results"; strconv_Itoa i;
                          "vulnerability_ids"; "1"; "vulnerability_id"])
                else Ret s0) = Fatal (FatalVulnId1 i)).
  { destruct (is_alias s0); [|left; by eexists].
    apply jq_or_fatal_cases. intros p.
    apply jq_String_no_panic, Hsafe. path_steps. }
  destruct H1 as [[c ->]| ->].
  2:{ right. eexists. split; [done|]. set_solver. }
  simpl.
  destruct (jq_or_fatal_cases (FatalId i)
              (jq_Int h jq ["results"; strconv_Itoa i; "id"])) as [[n ->]| ->].
  { intros p. apply jq_Int_no_panic, Hsafe. path_steps. }
  2:{ right. eexists. split; [done|]. set_solver. }
  simpl.
  destruct (jq_or_fatal_cases (FatalBody i)
              (jq_Object h jq ["results"; strconv_Itoa i])) as [[b ->]| ->].
  { intros p. apply jq_Object_no_panic, Hsafe. path_steps. }
  2:{ right. eexists. split; [done|]. set_solver. }
  left. by eexists.
Qed.

Lemma findings_loop_outcome (h : heap) (jq : loc) (left : nat) (i : Z)
    (cur : finding_data) (acc : list finding_data) :
  0 <= i -> i + Z.of_nat left <= 2 ^ 63 ->
  (exists l, findings_loop h jq left i cur acc = Ret l) \/
  (exists (e : fatal) (j : Z),
     findings_loop h jq left i cur acc = Fatal e /\ i <= j < i + Z.of_nat left /\
     e ∈ [FatalVulnId0 j; FatalVulnId1 j; FatalId j; FatalBody j]).
Proof.
  revert i cur acc. induction left as [|left IH]; intros i cur acc Hi Hb; simpl.
  - left. by eexists.
  - destruct (extract_finding_outcome h jq i cur) as [[f ->]|(e & -> & He)];
      [done | unfold int_range; lia | |].
    + simpl. destruct (IH (i + 1) f (acc ++ [f])%list) as [Hl|(e & j & He & Hj & Hin)];
        [lia | lia | by left |].
      right. exists e, j. split; [done|]. split; [lia|done].
    + right. exists e, i. split; [done|]. split; [lia|done].
Qed.

(** The extraction never panics. *)
Lemma CreateFindingsRaw_no_panic (h : heap) (jq : loc) (p : panic) :
  CreateFindingsRaw h jq <> Panic p.
Proof.
  unfold CreateFindingsRaw.
  destruct (jq_or_fatal_cases FatalCount (jq_Int h jq ["count"])) as [[n Hn]|Hn].
  { intros p'. apply jq_Int_no_panic. repeat constructor. by apply safe_step_name. }
  2:{ by rewrite Hn. }
  rewrite Hn. simpl.
  assert (Hc : jq_Int h jq ["count"] = JqOk n)
    by (destruct (jq_Int h jq ["count"]); simpl in Hn; congruence).
  pose proof (jq_Int_range _ _ _ _ Hc) as Hr. unfold int_range in Hr.
  destruct (findings_loop_outcome h jq (Z.to_nat (n - 1)) 1 finding_zero [])
    as [[l ->]|(e & j & -> & _)]; [lia | lia | done | done].
Qed.

(** X8. The extraction never panics: it returns, or it ends in [log.Fatal]
    at the lookup of the count or at one of the four lookups of a record
    between 1 and the count. *)
Theorem CreateFindingsRaw_returns_or_fatal (h : heap) (jq : loc) :
  (exists l, CreateFindingsRaw h jq = Ret l) \/
  CreateFindingsRaw h jq = Fatal FatalCount \/
  (exists (n j : Z) (e : fatal),
     jq_Int h jq ["count"] = JqOk n /\ 1 <= j < n /\
     CreateFindingsRaw h jq = Fatal e /\
     e ∈ [FatalVulnId0 j; FatalVulnId1 j; FatalId j; FatalBody j]).
Proof.
  unfold CreateFindingsRaw.
  destruct (jq_or_fatal_cases FatalCount (jq_Int h jq ["count"])) as [[n Hn]|Hn].
  { intros p. apply jq_Int_no_panic. repeat constructor. by apply safe_step_name. }
  2:{ right. left. by rewrite Hn. }
  rewrite Hn. simpl.
  assert (Hc : jq_Int h jq ["count"] = JqOk n)
    by (destruct (jq_Int h jq ["count"]); simpl in Hn; congruence).
  pose proof (jq_Int_range _ _ _ _ Hc) as Hr. unfold int_range in Hr.
  destruct (findings_loop_outcome h jq (Z.to_nat (n - 1)) 1 finding_zero [])
    as [Hl|(e & j & He & Hj & Hin)]; [lia | lia | by left |].
  right. right. exists n, j, e. repeat split; try done; lia.
Qed.

(** X9. When the listing declares [n >= 2] findings but has no record at
    index [n - 1], the extraction ends in [log.Fatal]: the summaries
    of the records that are there are not returned. *)
Theorem short_listing_is_fatal (h : heap) (jq : loc) (n : Z) :
  jq_Int h jq ["count"] = JqOk n -> 2 <= n ->
  (forall r : json, ~ record_at h jq (n - 1) r) ->
  exists e : fatal, CreateFindingsRaw h jq = Fatal e.
Proof.
  intros Hn Hle Hno.
  destruct (CreateFindingsRaw h jq) as [l|e|p] eqn:Hl;
    [|by eexists|by apply CreateFindingsRaw_no_panic in Hl].
  exfalso. destruct (CreateFindingsRaw_Ret _ _ _ Hl) as (n' & Hn' & _ & Hlen & _).
  rewrite Hn in Hn'. injection Hn' as <-.
  destruct (lookup_lt_is_Some_2 l (Z.to_nat (n - 2))) as [f Hf]; [lia|].
  destruct (CreateFindingsRaw_summary _ _ _ _ _ _ Hl Hn Hf)
    as (Hsel & _ & _ & _ & (m & mo & _ & _ & Hrec) & _).
  apply (Hno (JObj m)). by replace (n - 1) with (selector f) by lia.
Qed.

(** The loop over records that read. *)
Lemma findings_loop_split (h : heap) (jq : loc) (i : Z) (cur : finding_data)
    (acc fs : list finding_data) (left : nat) :
  0 <= i -> i + Z.of_nat (length fs) <= 2 ^ 63 ->
  epss_score cur = float64_zero -> epss_percentile cur = float64_zero ->
  (forall (k : nat) (f : finding_data),
     fs !! k = Some f -> reads_record h jq (i + Z.of_nat k) f) ->
  exists cur' : finding_data,
    epss_score cur' = float64_zero /\ epss_percentile cur' = float64_zero /\
    findings_loop h jq (length fs + left) i cur acc
    = findings_loop h jq left (i + Z.of_nat (length fs)) cur' (acc ++ fs)%list.
Proof.
  revert i cur acc. induction fs as [|f fs IH]; intros i cur acc Hi Hb Hs Hp Hfs.
  - exists cur. simpl. by rewrite Z.add_0_r, app_nil_r.
  - simpl in Hb. pose proof (Hfs 0%nat f eq_refl) as Hf. rewrite Z.add_0_r in Hf.
    assert (Hz : epss_score f = float64_zero /\ epss_percentile f = float64_zero)
      by (by destruct Hf as (m & s0 & x & _ & _ & _ & _ & ->)).
    destruct (IH (i + 1) f (acc ++ [f])%list) as (cur' & Hs' & Hp' & Hloop);
      [lia | lia | tauto | tauto | |].
    { intros k g Hk. specialize (Hfs (S k) g Hk).
      by replace (i + 1 + Z.of_nat k) with (i + Z.of_nat (S k)) by lia. }
    exists cur'. split; [done|]. split; [done|].
    cbn [length Nat.add findings_loop].
    rewrite (extract_finding_reads _ _ _ _ f) by
      (try done; unfold int_range; lia).
    simpl. rewrite Hloop. rewrite <- app_assoc. simpl.
    by replace (i + 1 + Z.of_nat (length fs))
      with (i + Z.of_nat (S (length fs))) by lia.
Qed.

(** X10. The first record without an identifier string where one is read
    ends the extraction in [log.Fatal], and with it the run: a record with
    no identifier at position 0, or with an alias at position 0 and no
    identifier at position 1.  The summaries of the records before it are
    not returned. *)
Theorem record_without_identifier_is_fatal (h : heap) (jq : loc) (n i : Z)
    (fs : list finding_data) :
  jq_Int h jq ["count"] = JqOk n ->
  i = 1 + Z.of_nat (length fs) -> i < n ->
  (forall (k : nat) (f : finding_data),
     fs !! k = Some f -> reads_record h jq (1 + Z.of_nat k) f) ->
  ((forall s : string, ~ identifier_at h jq i 0 s) ->
   CreateFindingsRaw h jq = Fatal (FatalVulnId0 i)) /\
  (forall s0 : string,
     identifier_at h jq i 0 s0 -> is_alias s0 = true ->
     (forall s : string, ~ identifier_at h jq i 1 s) ->
     CreateFindingsRaw h jq = Fatal (FatalVulnId1 i)).
Proof.
  intros Hn Hi Hlt Hfs. unfold CreateFindingsRaw. rewrite Hn. simpl.
  pose proof (jq_Int_range _ _ _ _ Hn) as Hr. unfold int_range in Hr.
  assert (Hir : int_range i) by (unfold int_range; lia).
  replace (Z.to_nat (n - 1))
    with (length fs + S (Z.to_nat (n - i - 1)))%nat by lia.
  destruct (findings_loop_split h jq 1 finding_zero [] fs
              (S (Z.to_nat (n - i - 1)))) as (cur & _ & _ & ->);
    [lia | lia | done | done | done |].
  rewrite <- Hi. cbn [findings_loop]. unfold extract_finding.
  assert (Hno : forall (P : string) (p : nat),
            P = "0" \/ P = "1" -> strconv_Atoi P = Some (Z.of_nat p) ->
            (forall s, ~ identifier_at h jq i p s) ->
            jq_String h jq ["results"; strconv_Itoa i; "vulnerability_ids"; P;
                            "vulnerability_id"] = JqErr).
  { intros P p HP Hp Hnone.
    destruct (jq_String h jq _) as [s| |pa] eqn:Hq; [|done|].
    - apply (jq_String_identifier _ _ _ _ p) in Hq; [|lia|done|done].
      by apply Hnone in Hq.
    - apply jq_String_no_panic in Hq; [done|].
      apply record_path_safe; [lia|done|].
      constructor; [by left|]. constructor; [by right|].
      constructor; [by left|]. constructor. }
  split.
  - intros Hnone. by rewrite (Hno "0" 0%nat) by (by try left).
  - intros s0 H0 Ha Hnone.
    rewrite (rquery_identifier _ _ _ "0" 0 s0) by (done || lia). simpl.
    rewrite Ha. by rewrite (Hno "1" 1%nat) by (by try right).
Qed.

End ListingMore.

(** ** The join: frame, failure and sharing *)

Section JoinMore.
Context `{FL : FloatLib}.
Implicit Types (M : gmap string epss_data) (h : heap) (f : finding_data).
Implicit Types (fs : list finding_data) (l : loc) (m : gmap string json).

(** X11. An identifier is a key of the lookup map exactly when it is, byte
    for byte, the identifier of an entry of the score list. *)
Theorem lookup_map_keys (epssList : list epss_data) (k : string) :
  is_Some (build_epssMap epssList !! k) <-> k ∈ e_cve <$> epssList.
Proof.
  induction epssList as [|e l IH] using rev_ind.
  - unfold build_epssMap. simpl. rewrite lookup_empty. split.
    + by intros [? ?].
    + by intros ?%elem_of_nil.
  - rewrite build_epssMap_snoc, fmap_app, elem_of_app, lookup_insert. simpl.
    rewrite list_elem_of_singleton. case_decide as Hk.
    + split; [by right | by eexists].
    + rewrite IH. split; [by left | intros [?|?]; [done | congruence]].
Qed.

(** The loop never ends in [log.Fatal]. *)
Lemma enrich_loop_not_fatal M fs h (e : fatal) : enrich_loop M fs h <> Fatal e.
Proof.
  revert h e. induction fs as [|f fs IH]; intros h e; simpl; [done|].
  destruct (M !! cve f).
  - destruct (body f) as [l|]; [|done]. destruct (h !! l) as [m|]; [|done].
    destruct (enrich_loop M fs _) eqn:Hr; try done. by apply IH in Hr.
  - destruct (enrich_loop M fs h) eqn:Hr; try done. by apply IH in Hr.
Qed.

Lemma enrich_loop_panic M fs h (p : panic) :
  enrich_loop M fs h = Panic p -> p = NilMapWrite.
Proof.
  revert h. induction fs as [|f fs IH]; intros h; simpl; [done|].
  destruct (M !! cve f).
  - destruct (body f) as [l|]; [|by intros [= <-]].
    destruct (h !! l) as [m|]; [|by intros [= <-]].
    destruct (enrich_loop M fs _) eqn:Hr; try done. simpl. intros [= <-].
    by eapply IH.
  - destruct (enrich_loop M fs h) eqn:Hr; try done. simpl. intros [= <-].
    by eapply IH.
Qed.

(** X12. The join returns exactly when every finding whose identifier is
    in the score list has a map for body; otherwise it panics on the write
    to a nil map.  It never ends in [log.Fatal]. *)
Theorem join_returns_or_panics (epssList : list epss_data) fs h :
  (Forall (writable (build_epssMap epssList) h) fs /\
   exists r, EnrichFindingData epssList fs h = Ret r) \/
  (~ Forall (writable (build_epssMap epssList) h) fs /\
   EnrichFindingData epssList fs h = Panic NilMapWrite).
Proof.
  unfold EnrichFindingData.
  destruct (enrich_loop (build_epssMap epssList) fs h) as [[fs1 h1]|e|p] eqn:Hr.
  - left. split; [|by eexists].
    by destruct (enrich_loop_Ret _ _ _ _ _ Hr) as (_ & Hw & _).
  - by apply enrich_loop_not_fatal in Hr.
  - right. pose proof (enrich_loop_panic _ _ _ _ Hr) as ->. split; [|done].
    intros Hw. apply (enrich_loop_writable (build_epssMap epssList)) in Hw as [r Hw].
    congruence.
Qed.

(** X13. The join changes nothing of a finding but its two scores: the
    sequence keeps its length and every finding its position, selector, id,
    identifier and body. *)
Theorem join_keeps_identity (epssList : list epss_data) fs h
    (fs1 : list finding_data) (h1 : heap) :
  EnrichFindingData epssList fs h = Ret (fs1, h1) ->
  length fs1 = length fs /\
  forall (i : nat) f, fs !! i = Some f ->
    exists f1, fs1 !! i = Some f1 /\
      selector f1 = selector f /\ id f1 = id f /\ cve f1 = cve f /\
      body f1 = body f.
Proof.
  unfold EnrichFindingData. intros Hr.
  destruct (enrich_loop_Ret _ _ _ _ _ Hr) as (-> & _ & _).
  split; [by rewrite length_fmap|]. intros i f Hi.
  exists (enrich_record (build_epssMap epssList) f).
  rewrite list_lookup_fmap, Hi. split; [done|].
  unfold enrich_record. by destruct (_ !! cve f).
Qed.

Lemma omap_hit_none M l fs :
  (forall f, f ∈ fs -> hit M l f = None) -> omap (hit M l) fs = [].
Proof.
  induction fs as [|g fs IH]; intros Hn; [done|]. simpl.
  rewrite (Hn g) by set_solver. apply IH. intros f Hf. apply Hn. set_solver.
Qed.

Lemma write_scores_other (s p : float64) m (k : string) :
  k <> "epss_score" -> k <> "epss_percentile" ->
  write_scores s p m !! k = m !! k.
Proof.
  intros Hs Hp. unfold write_scores.
  by rewrite !lookup_insert_ne.
Qed.

(** X14. The join allocates and frees no map, leaves every map that is not
    the body of a finding with an identifier of the score list as it was,
    and in any map changes at most the fields [epss_score] and
    [epss_percentile]. *)
Theorem join_frame (epssList : list epss_data) fs h
    (fs1 : list finding_data) (h1 : heap) :
  EnrichFindingData epssList fs h = Ret (fs1, h1) ->
  dom h1 = dom h /\
  (forall l,
     (forall f, f ∈ fs -> body f = Some l ->
                build_epssMap epssList !! cve f = None) ->
     h1 !! l = h !! l) /\
  (forall l m m1 (k : string),
     h !! l = Some m -> h1 !! l = Some m1 ->
     k <> "epss_score" -> k <> "epss_percentile" -> m1 !! k = m !! k).
Proof.
  unfold EnrichFindingData. intros Hr.
  destruct (enrich_loop_Ret _ _ _ _ _ Hr) as (_ & _ & Hh). split; [|split].
  - apply set_eq. intros l. rewrite !elem_of_dom, Hh.
    by rewrite <- !not_eq_None_Some, fmap_None.
  - intros l Hl. rewrite Hh. destruct (h !! l) as [m|]; [|done]. simpl.
    rewrite payload_after_last, omap_hit_none; [done|].
    intros f Hf. unfold hit. case_decide; [by apply Hl|done].
  - intros l m m1 k Hm Hm1 Hs Hp. rewrite Hh, Hm in Hm1. simpl in Hm1.
    injection Hm1 as <-. rewrite payload_after_last.
    destruct (last _); [|done]. by apply write_scores_other.
Qed.


Lemma build_epssMap_None (epssList : list epss_data) (k : string) :
  k ∉ e_cve <$> epssList -> build_epssMap epssList !! k = None.
Proof.
  induction epssList as [|e l IH] using rev_ind; [done|].
  rewrite build_epssMap_snoc, fmap_app, not_elem_of_app. intros [Hl He].
  rewrite lookup_insert_ne; [by apply IH|].
  intros Heq. apply He. simpl. rewrite Heq. left.
Qed.

Lemma enrich_loop_no_match M fs h :
  (forall f, f ∈ fs -> M !! cve f = None) -> enrich_loop M fs h = Ret (fs, h).
Proof.
  induction fs as [|f fs IH]; intros Hn; simpl; [done|].
  rewrite (Hn f) by set_solver. rewrite IH; [done|].
  intros g Hg. apply Hn. set_solver.
Qed.

(** X15. When no finding carries an identifier of the score list, the
    empty score list and the empty sequence included, the join returns the
    findings and the heap as they were. *)
Theorem join_without_match_is_identity (epssList : list epss_data) fs h :
  (forall f, f ∈ fs -> cve f ∉ e_cve <$> epssList) ->
  EnrichFindingData epssList fs h = Ret (fs, h).
Proof.
  intros Hn. apply enrich_loop_no_match. intros f Hf.
  by apply build_epssMap_None, Hn.
Qed.

(** X16. When findings share a body, it ends with the scores of the last
    of them whose identifier is in the score list: the writes of the
    earlier ones are overwritten. *)
Theorem shared_body_last_writer (epssList : list epss_data) h
    (before after fs1 : list finding_data) (h1 : heap) (g : finding_data)
    (e : epss_data) l m :
  EnrichFindingData epssList (before ++ g :: after) h = Ret (fs1, h1) ->
  body g = Some l -> build_epssMap epssList !! cve g = Some e ->
  (forall f, f ∈ after -> body f = Some l ->
             build_epssMap epssList !! cve f = None) ->
  h !! l = Some m ->
  h1 !! l = Some (write_scores (e_score e) (e_percentile e) m).
Proof.
  unfold EnrichFindingData. intros Hr Hb He Hafter Hm.
  destruct (enrich_loop_Ret _ _ _ _ _ Hr) as (_ & _ & Hh).
  rewrite Hh, Hm. simpl. f_equal. rewrite payload_after_last, omap_app. simpl.
  unfold hit at 2. rewrite decide_True by done. rewrite He.
  rewrite (omap_hit_none _ _ after).
  - by rewrite last_snoc.
  - intros f Hf. unfold hit. case_decide; [by apply Hafter|done].
Qed.
End JoinMore.

(** ** The dispatcher: every run *)

Lemma string_app_inv_head (p s1 s2 : string) : p +:+ s1 = p +:+ s2 -> s1 = s2.
Proof. induction p as [|a p IH]; [done|]. intros [= H]. by apply IH. Qed.

Lemma Z_to_int_nonnil (z : Z) :
  Z.to_int z <> Decimal.Pos Nil /\ Z.to_int z <> Decimal.Neg Nil.
Proof.
  destruct z as [|p|p]; simpl; split; try done; intros [= H];
    by apply (Unsigned.to_uint_nonnil p).
Qed.

(** The decimal rendering of an [int] determines it. *)
Lemma strconv_Itoa_inj (i j : Z) : strconv_Itoa i = strconv_Itoa j -> i = j.
Proof.
  unfold strconv_Itoa. intros H. apply DecimalZ.to_int_inj.
  assert (Hi : NilZero.int_of_string (NilZero.string_of_int (Z.to_int i))
             = NilZero.int_of_string (NilZero.string_of_int (Z.to_int j)))
    by (by rewrite H).
  rewrite !NilZero.isi in Hi; try apply Z_to_int_nonnil. by injection Hi.
Qed.

Section DispatchMore.
Context `{FL : FloatLib} `{Net : !NetLib}.

(** X17. Under one configuration, the update requests of findings with
    different ids go to different URLs. *)
Theorem update_url_determines_id (fl : flags) (f g : finding_data)
    (df dg : encoded) (rf rg : request encoded) :
  update_request fl f df = Some rf -> update_request fl g dg = Some rg ->
  r_url rf = r_url rg -> id f = id g.
Proof.
  unfold update_request, http_NewRequest. intros Hf Hg.
  destruct (url_ok _); [|done]. destruct (url_ok _); [|done].
  simpl in Hf, Hg. injection Hf as <-. injection Hg as <-. simpl. intros Hu.
  do 5 apply string_app_inv_head in Hu. by apply strconv_Itoa_inj.
Qed.

(** X18. What the dispatcher does depends on the id and the body of each
    finding only: the scores held by the finding itself are not sent. *)
Theorem dispatch_ignores_scores (fs gs : list finding_data) (fl : flags)
    (h : heap) (w : world) :
  Forall2 (fun f g => id f = id g /\ body f = body g) fs gs ->
  PatchFindingData fs fl h w = PatchFindingData gs fl h w.
Proof.
  intros HF. revert w. induction HF as [|f g fs gs [Hid Hb] _ IH]; intros w; [done|].
  simpl. rewrite Hb. destruct (json_Marshal _ _) as [d|]; [|done].
  unfold update_request, report. rewrite Hid.
  destruct (http_NewRequest _ _ _); simpl; [|done].
  destruct (client_Do _ w) as [[resp|] w1]; [|done]. by rewrite IH.
Qed.

(** Every run of the dispatcher. *)
Lemma PatchFindingData_run (fs : list finding_data) (fl : flags)
    (h : heap) (w : world) :
  exists (tr : list (event encoded)) (w' : world) (o : outcome unit),
    PatchFindingData fs fl h w = (tr, w', o) /\
    prints_of tr = zip_with report fs (replies fl h fs w) /\
    Forall2 (fun f req => update_call fl h f = Some req)
      (take (length (requests_of tr)) fs) (requests_of tr) /\
    (length (replies fl h fs w) <= length (requests_of tr)
       <= S (length (replies fl h fs w)))%nat /\
    (o = Ret tt <-> length (replies fl h fs w) = length fs) /\
    (o = Ret tt \/ o = Fatal FatalMarshal \/ o = Fatal FatalNewRequest \/
     o = Fatal FatalTransport).
Proof.
  revert w. induction fs as [|f fs IH]; intros w; simpl.
  - exists [], w, (Ret tt). repeat split; eauto; constructor.
  - unfold update_call.
    destruct (json_Marshal h (map_at h (body f))) as [d|] eqn:Hd; simpl.
    2:{ exists [], w, (Fatal FatalMarshal).
        repeat split; eauto; try done; constructor. }
    destruct (update_request fl f d) as [req|] eqn:Hreq; simpl.
    2:{ exists [], w, (Fatal FatalNewRequest).
        repeat split; eauto; try done; constructor. }
    destruct (client_Do req w) as [[resp|] w1] eqn:Hdo.
    2:{ exists [EvRequest req], w1, (Fatal FatalTransport).
        repeat split; eauto; try done; simpl; try lia.
        constructor; [|constructor]. unfold update_call. by rewrite Hd. }
    destruct (IH w1) as (tr & w' & o & -> & Hp & Hr & Hlen & Ho & Hk).
    exists (EvRequest req :: EvPrint (report f resp) :: tr), w', o.
    split; [done|]. simpl. split; [by rewrite Hp|]. split.
    { constructor; [|done]. unfold update_call. by rewrite Hd. }
    split; [lia|]. split; [|done]. rewrite Ho. split; lia.
Qed.

(** X19. In every run of the dispatcher the calls issued are those of a
    prefix of the findings, in order; one report is printed for every call
    that was answered; the run returns exactly when all calls were
    answered, and otherwise ends in [log.Fatal] at the first finding whose
    body does not encode, whose request is refused or whose call is not
    answered, with at most that one call past the answered ones. *)
Theorem dispatch_stops_at_first_failure (fs : list finding_data) (fl : flags)
    (h : heap) (w w' : world) (tr : list (event encoded)) (o : outcome unit) :
  PatchFindingData fs fl h w = (tr, w', o) ->
  prints_of tr = zip_with report fs (replies fl h fs w) /\
  Forall2 (fun f req => update_call fl h f = Some req)
    (take (length (requests_of tr)) fs) (requests_of tr) /\
  (length (replies fl h fs w) <= length (requests_of tr)
     <= S (length (replies fl h fs w)))%nat /\
  (o = Ret tt <-> length (replies fl h fs w) = length fs) /\
  (o = Ret tt \/ o = Fatal FatalMarshal \/ o = Fatal FatalNewRequest \/
   o = Fatal FatalTransport).
Proof.
  intros Hp.
  destruct (PatchFindingData_run fs fl h w) as (tr1 & w1 & o1 & Hrun & Hrest).
  rewrite Hp in Hrun. by injection Hrun as <- <- <-.
Qed.

End DispatchMore.

(** ** The whole run *)

Section MainRuns.
Context `{FL : FloatLib} `{CL : CsvLib} `{Net : !NetLib} `{Os : !OsLib}.

Lemma stage_bind_inv {A B : Type} (m : stage A) (k : A -> stage B)
    (s s' : world * files) (t : list (event encoded)) (r : B + ending) :
  stage_bind m k s = (t, s', r) ->
  (exists e, m s = (t, s', inr e) /\ r = inr e) \/
  (exists t1 s1 a t2,
     m s = (t1, s1, inl a) /\ k a s1 = (t2, s', r) /\ t = (t1 ++ t2)%list).
Proof.
  unfold stage_bind. destruct (m s) as [[t1 s1] [a|e]].
  - destruct (k a s1) as [[t2 s2] r2] eqn:Hk. intros [= <- <- <-].
    right. by exists t1, s1, a, t2.
  - intros [= <- <- <-]. left. by exists e.
Qed.

Lemma listing_request_default (args : list string) (req : request encoded) :
  listing_request (main_flags args) = Some req -> req = default_listing.
Proof.
  unfold listing_request, http_NewRequest. destruct (url_ok _); [|done].
  intros [= <-]. unfold with_header, header_Add, default_listing. simpl.
  f_equal.
Qed.

Lemma read_rows_panic (recs : list (list string)) (fin : option csv_error)
    (acc : list epss_data) (p : panic) :
  read_rows recs fin acc = Panic p -> feed_panic p.
Proof.
  revert acc. induction recs as [|record recs IH]; intros acc; simpl.
  - by destruct fin.
  - unfold index_or_panic.
    destruct (record !! 0%nat) eqn:H0; simpl.
    2:{ intros [= <-]. left. apply lookup_ge_None in H0. eexists _, _.
        split; [done|lia]. }
    destruct (record !! 1%nat) eqn:H1; simpl.
    2:{ intros [= <-]. left. apply lookup_ge_None in H1. eexists _, _.
        split; [done|lia]. }
    destruct (strconv_ParseFloat _); simpl; [|done].
    destruct (record !! 2%nat) eqn:H2; simpl.
    2:{ intros [= <-]. left. apply lookup_ge_None in H2. eexists _, _.
        split; [done|lia]. }
    destruct (strconv_ParseFloat _); simpl; [|done]. apply IH.
Qed.

Lemma LoadEpssData_panic (fsys : string -> file) (path : string) (p : panic) :
  LoadEpssData fsys path = Panic p -> feed_panic p.
Proof.
  unfold LoadEpssData, parse_feed, skip_first_line.
  destruct (fsys path) as [| |text]; try done.
  destruct (strings_Index text NL); simpl; [|done].
  destruct (read_rows _ _ _) as [rows|e|p'] eqn:Hr; simpl; [|done|].
  - unfold slice_from. case_decide; [done|]. intros [= <-]. right.
    eexists. split; [done|lia].
  - intros [= <-]. by eapply read_rows_panic.
Qed.

Lemma update_call_shape (fl : flags) (h : heap) (f : finding_data)
    (req : request encoded) :
  update_call fl h f = Some req ->
  r_method req = "PUT" /\
  r_url req = "http://" +:+ ip fl +:+ ":" +:+ strconv_Itoa (port fl)
              +:+ "/api/v2/findings/" +:+ strconv_Itoa (id f).
Proof.
  unfold update_call, update_request, http_NewRequest.
  destruct (json_Marshal _ _); simpl; [|done].
  destruct (url_ok _); simpl; [|done]. by intros [= <-].
Qed.

(** A run of [main] either ends before the dispatch, with no request but
    the two downloads, or reaches the dispatcher with the findings of the
    listing joined with some scores. *)
Lemma main_run (args : list string) (s s' : world * files)
    (t : list (event encoded)) (r : unit + ending) :
  main args s = (t, s', r) ->
  (exists e : ending,
     r = inr e /\ (forall p, e = EndPanic p -> feed_panic p) /\
     requests_of t `prefix_of` [default_listing; feed_request]) \/
  (exists (text : string) (h : heap) (jq : loc) (n : Z)
          (fs : list finding_data) (epss : list epss_data)
          (fs1 : list finding_data) (h1 : heap) (w w' : world)
          (tp : list (event encoded)) (o : outcome unit),
     json_Unmarshal text = Some (h, jq) /\
     jq_Int h jq ["count"] = JqOk n /\
     CreateFindingsRaw h jq = Ret fs /\
     EnrichFindingData epss fs h = Ret (fs1, h1) /\
     PatchFindingData fs1 default_flags h1 w = (tp, w', o) /\
     r = match o with
         | Ret _ => inl tt
         | Fatal e => inr (EndFatal e)
         | Panic p => inr (EndPanic p)
         end /\
     t = ([ EvPrint ("Starting EPSS enrichment..." +:+ NL);
            EvRequest default_listing;
            EvPrint ("Fetched all active findings..." +:+ NL);
            EvPrint ("Total findings: " +:+ strconv_Itoa n +:+ NL);
            EvPrint (strconv_Itoa (Z.of_nat (length fs))
                       +:+ " findings loaded..." +:+ NL);
            EvPrint ("Fetching EPSS data..." +:+ NL);
            EvRequest feed_request;
            EvPrint (strconv_Itoa (Z.of_nat (length epss))
                       +:+ " EPSS scores loaded..." +:+ NL);
            EvPrint ("Enriched findings..." +:+ NL) ]
          ++ tp
          ++ match o with
             | Ret _ => [EvPrint ("Findings patched." +:+ NL)]
             | _ => []
             end)%list).
Proof.
  unfold main. change (main_flags args) with default_flags.
  intros Hm.
  (* println *)
  apply stage_bind_inv in Hm as [(? & He & _)|(? & ? & [] & tr & H1 & Hm & ->)];
    [discriminate He|]. injection H1 as <- <-.
  (* FetchFindings *)
  apply stage_bind_inv in Hm as [(e & He & ->)|(tA & sA & text & tr' & HA & Hm & ->)].
  { left. exists e. unfold on_world, FetchFindings in He.
    destruct (listing_request default_flags) as [req|] eqn:Hreq.
    - apply (listing_request_default []) in Hreq as ->.
      destruct (client_Do _ _) as [[resp|] w1].
      + destruct (Body resp); simpl in He; [discriminate He|].
        injection He as <- <- <-. split; [done|]. split; [done|].
        by exists [feed_request].
      + injection He as <- <- <-. split; [done|]. split; [done|].
        by exists [feed_request].
    - injection He as <- <- <-. split; [done|]. split; [done|].
      by eexists. }
  assert (HtA : tA = [EvRequest default_listing]).
  { unfold on_world, FetchFindings in HA.
    destruct (listing_request default_flags) as [req|] eqn:Hreq; [|discriminate HA].
    apply (listing_request_default []) in Hreq as ->.
    destruct (client_Do _ _) as [[resp|] w1]; [|discriminate HA].
    by injection HA as <- _ _. }
  subst tA. clear HA.
  (* println *)
  apply stage_bind_inv in Hm as [(? & He & _)|(? & ? & [] & tr & H1 & Hm & ->)];
    [discriminate He|]. injection H1 as <- <-.
  (* CreateJsonQuery *)
  apply stage_bind_inv in Hm as [(e & He & ->)|(? & ? & [h jq] & tr'' & H1 & Hm & ->)].
  { left. exists e. unfold CreateJsonQuery in He.
    destruct (json_Unmarshal text); [discriminate He|].
    injection He as <- <- <-. split; [done|]. split; [done|].
    by exists [feed_request]. }
  unfold CreateJsonQuery in H1.
  destruct (json_Unmarshal text) as [doc|] eqn:Hdoc; [|discriminate H1].
  injection H1 as <- <- ->. simpl in Hm.
  (* CreateFindingsRaw *)
  apply stage_bind_inv in Hm as [(e & He & ->)|(? & ? & fs & tr & H1 & Hm & ->)].
  { left. exists e. unfold CreateFindingsRaw_stage in He.
    injection He as <- <- He.
    split; [done|]. split.
    { intros p ->. destruct (CreateFindingsRaw h jq) eqn:Hc; try discriminate He.
      injection He as ->. by apply CreateFindingsRaw_no_panic in Hc. }
    destruct (jq_Int h jq ["count"]); by exists [feed_request]. }
  unfold CreateFindingsRaw_stage in H1. injection H1 as <- <- H1.
  destruct (CreateFindingsRaw h jq) as [fs'| |] eqn:Hfs; try discriminate H1.
  injection H1 as ->.
  destruct (CreateFindingsRaw_Ret _ _ _ Hfs) as (n & Hn & _). rewrite Hn.
 
  (* println, println *)
  apply stage_bind_inv in Hm as [(? & He & _)|(? & ? & [] & tr' & H1 & Hm & ->)];
    [discriminate He|]. injection H1 as <- <-.
  apply stage_bind_inv in Hm as [(? & He & _)|(? & ? & [] & tr & H1 & Hm & ->)];
    [discriminate He|]. injection H1 as <- <-.
  (* FetchEpssData *)
  apply stage_bind_inv in Hm as [(e & He & ->)|(tB & sB & [] & tr' & HB & Hm & ->)].
  { left. exists e. unfold FetchEpssData in He.
    destruct (os_Create _ _) as [d1|].
    - destruct (client_Do _ _) as [[resp|] w1].
      + destruct (io_Copy _ _ _) as [c d2].
        destruct (UnGzip _ _ _) as [d3 [eu|]]; [|discriminate He].
        injection He as <- <- <-. split; [done|]. split; [done|].
        by exists [].
      + injection He as <- <- <-. split; [done|]. split; [done|].
        by exists [].
    - injection He as <- <- <-. split; [done|]. split; [done|].
      by exists [feed_request]. }
  assert (HtB : tB = [EvRequest feed_request]).
  { unfold FetchEpssData in HB.
    destruct (os_Create _ _) as [d1|]; [|discriminate HB].
    destruct (client_Do _ _) as [[resp|] w1]; [|discriminate HB].
    destruct (io_Copy _ _ _) as [c d2].
    destruct (UnGzip _ _ _) as [d3 [eu|]]; [discriminate HB|].
    by injection HB as <- _. }
  subst tB. clear HB.
  (* LoadEpssData *)
  apply stage_bind_inv in Hm as [(e & He & ->)|(? & ? & epss & tr & H1 & Hm & ->)].
  { left. exists e. unfold on_files in He. injection He as <- <- He.
    split; [done|]. split.
    { intros p ->. destruct (LoadEpssData _ _) eqn:Hl; try discriminate He.
      injection He as ->. by apply LoadEpssData_panic in Hl. }
    by exists []. }
  unfold on_files in H1. injection H1 as <- <- H1.
  (* println *)
  apply stage_bind_inv in Hm as [(? & He & _)|(? & ? & [] & tr' & H2 & Hm & ->)];
    [discriminate He|]. injection H2 as <- <-.
  (* EnrichFindingData *)
  apply stage_bind_inv in Hm as [(e & He & ->)|(? & ? & [fs1 h1] & tr & H2 & Hm & ->)].
  { exfalso. unfold pure_stage in He. injection He as _ _ He.
    destruct (EnrichFindingData_extracted epss h jq fs Hfs) as [r' Hr'].
    rewrite Hr' in He. discriminate He. }
  unfold pure_stage in H2. injection H2 as <- <- H2.
  destruct (EnrichFindingData epss fs h) as [[fs1' h1']| |] eqn:Hj; try discriminate H2.
  injection H2 as -> ->. simpl in Hm.
  (* println *)
  apply stage_bind_inv in Hm as [(? & He & _)|(? & ? & [] & tr' & H2 & Hm & ->)];
    [discriminate He|]. injection H2 as <- <-.
  (* PatchFindingData *)
  right. exists text, h, jq, n, fs, epss, fs1, h1, sB.1.
  apply stage_bind_inv in Hm as [(e & He & ->)|(tP & sP & [] & tr & H2 & Hm & ->)].
  - unfold on_world in He.
    destruct (PatchFindingData fs1 default_flags h1 sB.1) as [[tp w'] o] eqn:Hp.
    exists w', tp, o. injection He as <- _ He.
    destruct o as [[]|e'|p]; try discriminate He; injection He as <-;
      repeat split; try done; simpl; by rewrite app_nil_r.
  - unfold on_world in H2.
    destruct (PatchFindingData fs1 default_flags h1 sB.1) as [[tp w'] o] eqn:Hp.
    exists w', tp, o. injection H2 as <- _ H2.
    destruct o as [[]|e'|p]; try discriminate H2.
    injection Hm as <- _ <-. repeat split; done.
Qed.

Lemma requests_of_app {B : Type} (t1 t2 : list (event B)) :
  requests_of (t1 ++ t2) = (requests_of t1 ++ requests_of t2)%list.
Proof. apply omap_app. Qed.


Lemma requests_of_elem {B : Type} (t : list (event B)) (q : request B) :
  q ∈ requests_of t <-> EvRequest q ∈ t.
Proof.
  unfold requests_of. rewrite list_elem_of_omap. split.
  - intros ([q'|line] & Hin & [= <-]). done.
  - intros Hin. by exists (EvRequest q).
Qed.

(** The requests of a run of the dispatcher are update calls. *)
Lemma PatchFindingData_puts (fs : list finding_data) (fl : flags) (h : heap)
    (w w' : world) (tp : list (event encoded)) (o : outcome unit) :
  PatchFindingData fs fl h w = (tp, w', o) ->
  Forall (fun q => r_method q = "PUT") (requests_of tp).
Proof.
  intros Hp.
  destruct (PatchFindingData_run fs fl h w) as (tr & w1 & o1 & Hr & _ & HF & _).
  rewrite Hp in Hr. injection Hr as <- <- <-.
  apply Forall_lookup. intros i q Hq.
  destruct (Forall2_lookup_r _ _ _ _ _ HF Hq) as (f & _ & Hf).
  by apply update_call_shape in Hf as [? _].
Qed.


(** X21. In every run of [main], however it ends, the requests sent are an
    initial part of: the listing request, the request for the feed, then
    updates; and no update is sent before the line [Enriched findings...]
    is printed, that is before the listing is extracted, the feed loaded
    and the join done. *)
Theorem main_request_order (args : list string) (s s' : world * files)
    (t : list (event encoded)) (r : unit + ending) :
  main args s = (t, s', r) ->
  (exists puts : list (request encoded),
     Forall (fun q => r_method q = "PUT") puts /\
     requests_of t `prefix_of` default_listing :: feed_request :: puts) /\
  (forall (t1 t2 : list (event encoded)) (q : request encoded),
     t = (t1 ++ EvRequest q :: t2)%list -> r_method q = "PUT" ->
     EvPrint ("Enriched findings..." +:+ NL) ∈ t1).
Proof.
  intros Hm. apply main_run in Hm as [(e & -> & _ & Hpre)|Hm].
  - split.
    + exists []. split; [constructor|done].
    + intros t1 t2 q -> Hq. exfalso.
      assert (Hin : q ∈ [default_listing; feed_request]).
      { destruct Hpre as [k ->]. apply elem_of_app. left.
        apply requests_of_elem, elem_of_app. right. left. }
      apply elem_of_cons in Hin as [->|Hin]; [discriminate Hq|].
      apply list_elem_of_singleton in Hin as ->. discriminate Hq.
  - destruct Hm as (text & h & jq & n & fs & epss & fs1 & h1 & w & w' & tp & o
                    & _ & _ & _ & _ & Hp & _ & ->).
    pose proof (PatchFindingData_puts _ _ _ _ _ _ _ Hp) as Hputs.
    split.
    + exists (requests_of tp). split; [done|].
      rewrite requests_of_app, requests_of_app. simpl.
      destruct o; simpl; by rewrite app_nil_r.
    + intros t1 t2 q Ht Hq. symmetry in Ht.
      apply app_eq_inv in Ht as [(k & -> & _)|(k & Hhead & Hk)].
      { apply elem_of_app. left. do 8 right. left. }
      destruct k as [|ev k].
      { rewrite app_nil_r in Hhead. subst t1. do 8 right. left. }
      injection Hk as <- _. exfalso.
      assert (Hin : q ∈ requests_of
                [ EvPrint ("Starting EPSS enrichment..." +:+ NL);
                  EvRequest default_listing;
                  EvPrint ("Fetched all active findings..." +:+ NL);
                  EvPrint ("Total findings: " +:+ strconv_Itoa n +:+ NL);
                  EvPrint (strconv_Itoa (Z.of_nat (length fs))
                             +:+ " findings loaded..." +:+ NL);
                  EvPrint ("Fetching EPSS data..." +:+ NL);
                  EvRequest feed_request;
                  EvPrint (strconv_Itoa (Z.of_nat (length epss))
                             +:+ " EPSS scores loaded..." +:+ NL);
                  EvPrint ("Enriched findings..." +:+ NL) ]).
      { rewrite Hhead. apply requests_of_elem, elem_of_app. right. left. }
      simpl in Hin.
      apply elem_of_cons in Hin as [->|Hin]; [discriminate Hq|].
      apply list_elem_of_singleton in Hin as ->. discriminate Hq.
Qed.

(** X22. [main] panics only in the reading of the feed, on a record of
    fewer than three fields or on fewer than two rows: the queries of the
    listing, the join on the extracted findings and the dispatch never
    panic.  No update has been sent when it does. *)
Theorem main_panics_only_on_feed (args : list string) (s s' : world * files)
    (t : list (event encoded)) (p : panic) :
  main args s = (t, s', inr (EndPanic p)) ->
  feed_panic p /\ requests_of t `prefix_of` [default_listing; feed_request].
Proof.
  intros Hm. apply main_run in Hm as [(e & [= <-] & Hpanic & Hpre)|Hm].
  - split; [by apply Hpanic | done].
  - exfalso.
    destruct Hm as (text & h & jq & n & fs & epss & fs1 & h1 & w & w' & tp & o
                    & _ & _ & _ & _ & Hp & Hr & _).
    destruct (PatchFindingData_run fs1 default_flags h1 w)
      as (tr & w1 & o1 & Hrun & _ & _ & _ & _ & Ho).
    rewrite Hp in Hrun. injection Hrun as _ _ <-.
    destruct Ho as [->|[->|[->| ->]]]; discriminate Hr.
Qed.

End MainRuns.

(** ** Runs on concrete inputs *)

Import Ref Sample.

Lemma C1_witness :
  LoadEpssData (disk feed_numeric) feed_path = Ret loaded /\
  exists (first rest : string) (rows : list epss_data) (r0 r1 : epss_data),
    disk feed_numeric feed_path = Contents (first +:+ NL +:+ rest) /\
    strings_Contains first NL = false /\
    final (csv_NewReader rest) = None /\
    Forall2 parsed_row (pending (csv_NewReader rest)) rows /\
    rows = r0 :: r1 :: loaded /\
    loaded = drop 2 rows.
Proof.
  split; [reflexivity|].
  apply (C1_first_two_rows_dropped (disk feed_numeric) feed_path loaded).
  reflexivity.
Defined.

Lemma C10_witness :
  disk feed_one_row feed_path = Contents feed_one_row /\
  LoadEpssData (disk feed_one_row) feed_path = Panic (SliceOutOfRange 2 1).
Proof.
  split; [reflexivity|].
  apply (proj2 (C10_short_feed_panics (disk feed_one_row) feed_path feed_one_row
                  eq_refl) [entry "CVE-2024-0001" 12345 67890]).
  - reflexivity.
  - simpl; lia.
Defined.

(** The metadata line followed by the line of column names: the second
    line does not parse as a row, and the run ends in [log.Fatal] with a
    feed error, not in a panic. *)
Lemma C10_counterexample :
  LoadEpssData (disk feed_header_only) feed_path = Fatal (FatalScore "epss") /\
  kind_of (FatalScore "epss") = MalformedFeed /\
  ~ (exists p : panic, LoadEpssData (disk feed_header_only) feed_path = Panic p).
Proof.
  assert (H : LoadEpssData (disk feed_header_only) feed_path
              = Fatal (FatalScore "epss")) by (reflexivity).
  split; [exact H|]. split; [reflexivity|].
  intros [p Hp]. rewrite H in Hp. discriminate.
Qed.

Lemma C8_witness :
  LoadEpssData (disk feed_numeric) feed_path = Ret loaded /\
  build_epssMap loaded !! "CVE-2024-0001" = Some (entry "CVE-2024-0001" 12345 67890) /\
  exists (text : string) (rows : list epss_data),
    disk feed_numeric feed_path = Contents text /\ parse_feed text = Ret rows /\
    NoDup (map_to_list (build_epssMap loaded)).*1 /\
    (forall k : string, build_epssMap loaded !! k = last_row k loaded) /\
    (forall (k : string) (e : epss_data),
       build_epssMap loaded !! k = Some e -> last_row k rows = Some e /\ e_cve e = k).
Proof.
  split; [reflexivity|]. split; [reflexivity|].
  apply (C8_last_row_wins (disk feed_numeric) feed_path loaded).
  reflexivity.
Defined.

(** An identifier list that holds an empty string gives a summary with an
    empty identifier, and the run does not fail; and a listing that
    declares no finding gives no summary, not [0 - 1] of them. *)
Lemma C2_counterexample :
  (jq_Int listing_empty_id 1 ["count"] = JqOk 2 /\
   CreateFindingsRaw listing_empty_id 1 = Ret [finding 1 10 "" 3] /\
   ~ ((exists l, CreateFindingsRaw listing_empty_id 1 = Ret l /\
                 Forall (fun f => cve f <> "") l) \/
      (exists e, CreateFindingsRaw listing_empty_id 1 = Fatal e /\
                 kind_of e = MissingIdentifier))) /\
  (jq_Int listing_none 1 ["count"] = JqOk 0 /\
   CreateFindingsRaw listing_none 1 = Ret [] /\
   Z.of_nat (length (@nil finding_data)) <> 0 - 1).
Proof.
  assert (H : CreateFindingsRaw listing_empty_id 1
              = Ret [finding 1 10 "" 3]) by reflexivity.
  split; [|done].
  split; [reflexivity|]. split; [exact H|].
  intros [(l & Hl & Hne)|(e & He & _)]; rewrite H in *; [|discriminate].
  injection Hl as <-. apply Forall_cons in Hne as [Hne _]. by apply Hne.
Qed.

Lemma C2_witness :
  CreateFindingsRaw listing 1 = Ret extracted /\
  exists n : Z,
    jq_Int listing 1 ["count"] = JqOk n /\
    length extracted = Z.to_nat (n - 1) /\
    forall (k : nat) (f : finding_data), extracted !! k = Some f ->
      selector f = 1 + Z.of_nat k /\ 1 <= selector f < n /\
      (exists (m : loc) (mo : gmap string json),
         body f = Some m /\ listing !! m = Some mo /\
         record_at listing 1 (selector f) (JObj m)) /\
      (identifier_at listing 1 (selector f) 0 (cve f) \/
       identifier_at listing 1 (selector f) 1 (cve f)).
Proof.
  split; [reflexivity|].
  apply (C2_summaries_of_listing listing 1 extracted). reflexivity.
Defined.

Lemma C4_witness :
  CreateFindingsRaw listing 1 = Ret extracted /\
  extracted !! 1%nat = Some (finding 2 11 "CVE-2024-0002" 5) /\
  exists s0 : string,
    identifier_at listing 1 2 0 s0 /\
    (strings_Contains s0 "GHSA" = true ->
       identifier_at listing 1 2 1 "CVE-2024-0002") /\
    (strings_Contains s0 "GHSA" = false -> "CVE-2024-0002" = s0).
Proof.
  split; [reflexivity|]. split; [reflexivity|].
  apply (C4_alias_resolution listing 1 extracted 1
           (finding 2 11 "CVE-2024-0002" 5)); reflexivity.
Defined.

Lemma extracted_owns (i : nat) (f : finding_data) :
  extracted !! i = Some f -> owns_body extracted i f.
Proof.
  intros Hi j g Hj Hb.
  destruct i as [|[|i]]; simpl in Hi; try discriminate; injection Hi as <-;
    destruct j as [|[|j]]; simpl in Hj; try discriminate; injection Hj as <-;
    try reflexivity; discriminate.
Qed.

Lemma C5_witness :
  EnrichFindingData scores extracted listing = Ret (enriched, joined) /\
  enriched !! 0%nat
    = Some (with_scores (finding 1 10 "CVE-2024-0001" 3)
              (entry "CVE-2024-0001" 12345 67890)) /\
  joined !! 3%positive ≫= (.!! "epss_score") = Some (JStr "0.12345") /\
  joined !! 3%positive ≫= (.!! "epss_percentile") = Some (JStr "0.67890") /\
  exists l m,
    Some 3%positive = Some l /\ listing !! l = Some m /\
    joined !! l =
      Some (<["epss_percentile" := JStr "0.67890"]>
              (<["epss_score" := JStr "0.12345"]> m)).
Proof.
  split; [reflexivity|]. split; [reflexivity|].
  split; [reflexivity|]. split; [reflexivity|].
  destruct (C5_matched_finding_enriched scores extracted listing enriched joined
              0 (finding 1 10 "CVE-2024-0001" 3)
              (entry "CVE-2024-0001" 12345 67890) eq_refl eq_refl eq_refl)
    as (_ & _ & l & m & Hl & Hm & Hwrite).
  exists l, m. split; [exact Hl|]. split; [exact Hm|].
  apply Hwrite. apply extracted_owns. reflexivity.
Defined.

Lemma C6_witness :
  EnrichFindingData scores extracted listing = Ret (enriched, joined) /\
  length enriched = length extracted /\
  enriched !! 1%nat = Some (finding 2 11 "CVE-2024-0002" 5) /\
  joined !! 5%positive = listing !! 5%positive /\
  epss_score (finding 2 11 "CVE-2024-0002" 5) = float64_zero.
Proof.
  split; [reflexivity|].
  destruct (C6_unmatched_finding_unchanged scores extracted listing enriched
              joined eq_refl) as [Hlen Hun].
  split; [exact Hlen|].
  destruct (Hun 1%nat (finding 2 11 "CVE-2024-0002" 5) eq_refl eq_refl)
    as (Hsame & Hbody & Hzero).
  split; [exact Hsame|]. split.
  - apply Hbody. apply extracted_owns. reflexivity.
  - apply (Hzero listing 1%positive). reflexivity.
Defined.

Lemma C9_witness :
  (r <-! EnrichFindingData scores extracted listing;
   EnrichFindingData scores r.1 r.2) = Ret (enriched, joined) /\
  EnrichFindingData scores enriched joined = Ret (enriched, joined).
Proof.
  destruct (C9_join_idempotent scores extracted listing) as [Htwice Hsame].
  split.
  - rewrite Htwice. reflexivity.
  - reflexivity.
Defined.

(** Three findings, the second update answered with status 500: all three
    calls are issued, in order, and the three outcomes are printed. *)
Lemma C7_witness :
  length (replies local joined batch (server [ok 200; ok 500; ok 200])) = length batch /\
  exists (tr : list (event encoded)) (w' : world),
    PatchFindingData batch local joined (server [ok 200; ok 500; ok 200])
      = (tr, w', Ret tt) /\
    requests_of tr = put local <$> batch /\
    prints_of tr =
      [ "Successfully updated finding with ID: 10" +:+ NL;
        "Updating finding failed with status code 500" +:+ NL;
        "Successfully updated finding with ID: 12" +:+ NL ].
Proof.
  split; [reflexivity|].
  destruct (C7_one_call_per_finding local joined batch (server [ok 200; ok 500; ok 200])
              eq_refl) as (tr & w' & Hrun & _ & Hprints).
  exists tr, w'. split; [exact Hrun|]. split.
  - cut (Some tr = Some (fst (fst (PatchFindingData batch local joined
                                      (server [ok 200; ok 500; ok 200]))))).
    + intros [= ->]. reflexivity.
    + by rewrite Hrun.
  - rewrite Hprints. reflexivity.
Defined.

(** Two findings, the first call fails in transport: one call is issued for
    two findings and the run ends in [log.Fatal]. *)
Lemma C7_counterexample :
  PatchFindingData extracted local joined (server [None; ok 200])
    = ([EvRequest (put local (finding 1 10 "CVE-2024-0001" 3))], server [ok 200],
       Fatal FatalTransport) /\
  ~ (length (requests_of (PatchFindingData extracted local joined
                            (server [None; ok 200])).1.1) = length extracted).
Proof. split; [reflexivity|]. intros H. vm_compute in H. discriminate. Qed.

(** C3.  Whatever the command line, the configuration [main] builds is
    the three defaults.  With a token, a host and a port on the command
    line, these defaults are what the listing request and the update
    requests carry: the empty token, localhost and 8080. *)
Theorem C3_command_line_not_read :
  (forall args : list string, main_flags args = local) /\
  listing_request (main_flags cli)
    = Some {| r_method := "GET";
              r_url := "http://localhost:8080/api/v2/findings/"
                       +:+ "?active=true&limit=99999999";
              r_header := {[ "Authorization" := [""] ]};
              r_body := None |} /\
  (r_url <$> update_call (main_flags cli) joined (finding 1 10 "CVE-2024-0001" 3))
    = Some "http://localhost:8080/api/v2/findings/10" /\
  (update_call (main_flags cli) joined (finding 1 10 "CVE-2024-0001" 3)
     ≫= fun r => r_header r !! "Authorization") = Some [""].
Proof. repeat split; reflexivity. Qed.

(** *** Further runs *)

Lemma feed_with_two_rows_loads_witness :
  LoadEpssData (disk feed_numeric) feed_path = Ret loaded.
Proof.
  apply (feed_with_two_rows_loads (disk feed_numeric) feed_path feed_first
           (string_from (S (String.length feed_first)) feed_numeric) numeric_rows).
  - reflexivity.
  - reflexivity.
  - reflexivity.
  - repeat (constructor; [eexists _, _; repeat split; reflexivity|]). constructor.
  - simpl; lia.
Defined.

Lemma feed_without_line_break_is_fatal_witness :
  LoadEpssData (disk "cve,epss") feed_path = Fatal FatalNoNewline.
Proof.
  apply (feed_without_line_break_is_fatal (disk "cve,epss") feed_path "cve,epss").
  - reflexivity.
  - intros H. vm_compute in H. repeat destruct H as [H|H]; discriminate || done.
Defined.

(** The feed as published: the line of column names is the first record
    and its second field is no number. *)
Lemma unreadable_number_is_fatal_witness :
  LoadEpssData (disk feed_published) feed_path = Fatal (FatalScore "epss").
Proof.
  destruct (unreadable_number_is_fatal (disk feed_published) feed_path
              feed_first
              (string_from (S (String.length feed_first)) feed_published)
              [] [["CVE-2024-0001"; "0.12345"; "0.67890"]]
              ["cve"; "epss"; "percentile"] [] "cve" "epss") as [H _];
    [reflexivity | reflexivity | reflexivity | constructor | reflexivity
    | reflexivity |].
  apply H. reflexivity.
Defined.


Lemma csv_error_is_fatal_witness :
  LoadEpssData (disk feed_field_count) feed_path = Fatal (FatalCsv ErrFieldCount).
Proof.
  apply (csv_error_is_fatal (disk feed_field_count) feed_path feed_first
           (string_from (S (String.length feed_first)) feed_field_count)
           [entry "CVE-2024-0001" 12345 67890]).
  - reflexivity.
  - reflexivity.
  - repeat (constructor; [eexists _, _; repeat split; reflexivity|]). constructor.
  - reflexivity.
Defined.

Lemma listing_reads (k : nat) (f : finding_data) :
  extracted !! k = Some f -> reads_record listing 1 (1 + Z.of_nat k) f.
Proof.
  destruct k as [|[|k]]; simpl; intros [= <-].
  - exists 3%positive, "CVE-2024-0001", {| mant := 10; scale := O |}.
    repeat split.
    + eexists. repeat split; [eexists _, _; repeat split; reflexivity | lia | reflexivity].
    + eexists _, _, _. repeat split;
        [eexists; repeat split; [eexists _, _; repeat split; reflexivity | lia | reflexivity]
        | eexists _, _; repeat split; reflexivity | reflexivity
        | eexists _, _; repeat split; reflexivity].
    + eexists _, _; repeat split; reflexivity.
  - exists 5%positive, "GHSA-xxxx", {| mant := 11; scale := O |}.
    repeat split.
    + eexists. repeat split; [eexists _, _; repeat split; reflexivity | lia | reflexivity].
    + eexists _, _, _. repeat split;
        [eexists; repeat split; [eexists _, _; repeat split; reflexivity | lia | reflexivity]
        | eexists _, _; repeat split; reflexivity | reflexivity
        | eexists _, _; repeat split; reflexivity].
    + change (identifier_at listing 1 2 1 "CVE-2024-0002").
      eexists _, _, _. repeat split;
        [eexists; repeat split; [eexists _, _; repeat split; reflexivity | lia | reflexivity]
        | eexists _, _; repeat split; reflexivity | reflexivity
        | eexists _, _; repeat split; reflexivity].
    + eexists _, _; repeat split; reflexivity.
Qed.

Lemma readable_listing_is_extracted_witness :
  CreateFindingsRaw listing 1 = Ret extracted.
Proof.
  apply (readable_listing_is_extracted listing 1 3 extracted eq_refl eq_refl).
  exact listing_reads.
Defined.

Lemma listing_of_at_most_one_is_empty_witness :
  CreateFindingsRaw listing_none 1 = Ret [].
Proof.
  apply (listing_of_at_most_one_is_empty listing_none 1 0 eq_refl). lia.
Defined.

Lemma short_listing_is_fatal_witness :
  exists e : fatal, CreateFindingsRaw listing_short 1 = Fatal e.
Proof.
  apply (short_listing_is_fatal listing_short 1 3 eq_refl); [lia|].
  intros r (results & Hres & _ & Hr).
  assert (H : field_at listing_short (JObj 1) "results" (JArr [JObj 2; JObj 3]))
    by (eexists _, _; repeat split; reflexivity).
  pose proof (field_at_inj _ _ _ _ _ Hres H) as [= ->]. discriminate Hr.
Defined.

Lemma join_keeps_identity_witness :
  length enriched = length extracted /\
  forall (i : nat) (f : finding_data), extracted !! i = Some f ->
    exists f1, enriched !! i = Some f1 /\
      selector f1 = selector f /\ id f1 = id f /\ cve f1 = cve f /\
      body f1 = body f.
Proof.
  apply (join_keeps_identity scores extracted listing enriched joined).
  reflexivity.
Defined.

Lemma join_frame_witness :
  dom joined = dom listing /\
  joined !! 5%positive = listing !! 5%positive.
Proof.
  destruct (join_frame scores extracted listing enriched joined eq_refl)
    as (Hdom & Hother & _).
  split; [exact Hdom|]. apply Hother.
  intros f Hf Hb.
  apply elem_of_cons in Hf as [->|Hf]; [discriminate Hb|].
  apply list_elem_of_singleton in Hf as ->. reflexivity.
Defined.

Lemma join_without_match_is_identity_witness :
  EnrichFindingData scores_apart extracted listing = Ret (extracted, listing).
Proof.
  apply (join_without_match_is_identity scores_apart extracted listing).
  intros f Hf Hin.
  apply elem_of_cons in Hf as [->|Hf];
    [|apply list_elem_of_singleton in Hf as ->];
    (apply elem_of_cons in Hin as [Hin|Hin];
       [discriminate Hin | apply list_elem_of_singleton in Hin; discriminate Hin]).
Defined.

(** Two findings on the body at address 3, both with scores: the body ends
    with the scores of the second. *)
Lemma shared_body_last_writer_witness :
  exists (fs1 : list finding_data) (h1 : heap),
    EnrichFindingData numeric_rows sharing listing = Ret (fs1, h1) /\
    h1 !! 3%positive
    = Some (<["epss_percentile" := JStr "0.88500"]>
              (<["epss_score" := JStr "0.02091"]>
                 (list_to_map [("id", num 10);
                               ("vulnerability_ids", JArr [JObj 4])]))).
Proof.
  destruct (EnrichFindingData numeric_rows sharing listing) as [[fs1 h1]| |] eqn:Hr;
    [|discriminate Hr..].
  exists fs1, h1. split; [reflexivity|].
  apply (shared_body_last_writer numeric_rows listing
           [finding 1 10 "CVE-1999-0001" 3] [finding 3 12 "CVE-2024-0002" 5]
           fs1 h1 (finding 2 11 "CVE-1999-0002" 3)
           (entry "CVE-1999-0002" 2091 88500) 3%positive
           (list_to_map [("id", num 10); ("vulnerability_ids", JArr [JObj 4])])
           Hr eq_refl eq_refl).
  - intros f Hf Hb. apply list_elem_of_singleton in Hf as ->. discriminate Hb.
  - reflexivity.
Defined.

Lemma update_url_determines_id_witness :
  id (finding 1 10 "CVE-2024-0001" 3) = id (finding 2 10 "CVE-2024-0002" 5).
Proof.
  apply (update_url_determines_id local
           (finding 1 10 "CVE-2024-0001" 3) (finding 2 10 "CVE-2024-0002" 5)
           (map_at joined (Some 3%positive) : @encoded float_lib net_lib)
           (map_at joined (Some 5%positive) : @encoded float_lib net_lib)
           (put local (finding 1 10 "CVE-2024-0001" 3))
           (put local (finding 2 10 "CVE-2024-0002" 5)));
    reflexivity.
Defined.

(** The findings before and after the join are dispatched alike. *)
Lemma dispatch_ignores_scores_witness :
  PatchFindingData extracted local joined (server [ok 200; ok 500])
  = PatchFindingData enriched local joined (server [ok 200; ok 500]).
Proof.
  apply (dispatch_ignores_scores extracted enriched local joined
           (server [ok 200; ok 500])).
  repeat constructor.
Defined.

(** The second record has the alias [GHSA-xxxx] and no second identifier:
    the run ends there, and the summary of the first record is lost. *)
Lemma record_without_identifier_is_fatal_witness :
  CreateFindingsRaw listing_alias_only 1 = Fatal (FatalVulnId1 2).
Proof.
  destruct (record_without_identifier_is_fatal listing_alias_only 1 3 2
              [finding 1 10 "CVE-2024-0001" 3]) as [_ H];
    [reflexivity | reflexivity | lia | |].
  - intros [|k] f; simpl; intros [= <-].
    exists 3%positive, "CVE-2024-0001", {| mant := 10; scale := O |}.
    repeat split.
    + eexists. repeat split; [eexists _, _; repeat split; reflexivity | lia | reflexivity].
    + eexists _, _, _. repeat split;
        [eexists; repeat split; [eexists _, _; repeat split; reflexivity | lia | reflexivity]
        | eexists _, _; repeat split; reflexivity | reflexivity
        | eexists _, _; repeat split; reflexivity].
    + eexists _, _; repeat split; reflexivity.
  - apply (H "GHSA-xxxx").
    + eexists _, _, _. repeat split;
        [eexists; repeat split; [eexists _, _; repeat split; reflexivity | lia | reflexivity]
        | eexists _, _; repeat split; reflexivity | reflexivity
        | eexists _, _; repeat split; reflexivity].
    + reflexivity.
    + intros s (r & ids & o & (results & Hres & _ & Hr) & Hids & Ho & _).
      assert (H1 : field_at listing_alias_only (JObj 1) "results"
                     (JArr [JObj 2; JObj 3; JObj 5]))
        by (eexists _, _; repeat split; reflexivity).
      pose proof (field_at_inj _ _ _ _ _ Hres H1) as [= ->].
      injection Hr as <-.
      assert (H2 : field_at listing_alias_only (JObj 5) "vulnerability_ids"
                     (JArr [JObj 6]))
        by (eexists _, _; repeat split; reflexivity).
      pose proof (field_at_inj _ _ _ _ _ Hids H2) as [= ->].
      discriminate Ho.
Defined.

(** Two findings, the first call unanswered: one request, no report, and
    the run ends in [log.Fatal]. *)
Lemma dispatch_stops_at_first_failure_witness :
  PatchFindingData extracted local joined (server [None; ok 200])
  = ([EvRequest (put local (finding 1 10 "CVE-2024-0001" 3))], server [ok 200],
     Fatal FatalTransport) /\
  length (replies local joined extracted (server [None; ok 200])) = 0%nat /\
  (Fatal FatalTransport = Ret tt <->
   length (replies local joined extracted (server [None; ok 200]))
   = length extracted).
Proof.
  split; [reflexivity|]. split; [reflexivity|].
  apply (dispatch_stops_at_first_failure extracted local joined
           (server [None; ok 200]) (server [ok 200])
           [EvRequest (put local (finding 1 10 "CVE-2024-0001" 3))]
           (Fatal FatalTransport)).
  reflexivity.
Defined.

Import RefOs.


(** The same with the second update unanswered: the run ends in
    [log.Fatal] after two updates sent. *)
Lemma main_request_order_witness :
  run_cut.2 = inr (EndFatal FatalTransport) /\
  (exists puts : list (request encoded),
     Forall (fun q => r_method q = "PUT") puts /\
     requests_of run_cut.1.1 `prefix_of` default_listing :: feed_request :: puts) /\
  (forall (t1 t2 : list (event encoded)) (q : request encoded),
     run_cut.1.1 = (t1 ++ EvRequest q :: t2)%list -> r_method q = "PUT" ->
     EvPrint ("Enriched findings..." +:+ NL) ∈ t1).
Proof.
  split; [reflexivity|].
  apply (main_request_order cli (site feed_numeric [ok 200]) run_cut.1.2
           run_cut.1.1 run_cut.2).
  reflexivity.
Defined.

(** A feed of the metadata line and one row: the run panics at the slicing,
    after the two downloads. *)
Lemma main_panics_only_on_feed_witness :
  run_one_row.2 = inr (EndPanic (SliceOutOfRange 2 1)) /\
  feed_panic (SliceOutOfRange 2 1) /\
  requests_of run_one_row.1.1 `prefix_of` [default_listing; feed_request].
Proof.
  split; [reflexivity|].
  apply (main_panics_only_on_feed cli (site feed_one_row [ok 200; ok 404])
           run_one_row.1.2 run_one_row.1.1 (SliceOutOfRange 2 1)).
  reflexivity.
Defined.
